(** * A todo list: service, store and client

    Shallow embedding of the MERN todo application:

    - [todo-backend/models/todo.js]: the [Todo] schema (module [Todo]);
    - the Express router ([router.get], [router.post], [router.put],
      [router.delete]) which delegates to the Mongoose model (module
      [Routes]);
    - [todo-frontend/src/api.js] and [todo-frontend/src/App.jsx]: the React
      component state and its event handlers (module [App]).

    Conventions.  A MongoDB collection is a list of documents in insertion
    order.  An [ObjectId] is a natural number drawn from a counter kept with
    the collection: the only properties of identifiers that the application
    relies on are that they are unique and never handed out twice.  A [Date]
    is a number of milliseconds, as [Date.now()] gives it; the clock is an
    input of every operation that reads it.  A JavaScript string is a
    [string] whose characters are code units below 256. *)

From Stdlib Require Import ZArith NArith List String Ascii Bool Lia.
From Stdlib Require Import Permutation Sorted.
Import ListNotations.

Local Open Scope string_scope.
Local Open Scope Z_scope.

Definition ObjectId := N.
Definition Date := Z.

(** A promise that has settled: [await] either yields the value or throws. *)
Inductive settled (A : Type) : Type :=
| Fulfilled (value : A)
| Rejected (message : string).
Arguments Fulfilled {A} value.
Arguments Rejected {A} message.

(** ** The model: [models/todo.js] *)

Module Todo.

(** A stored document: the two schema paths, the identifier and the two
    fields added by [timestamps: true]. *)
Record t := Build {
  _id : ObjectId;
  title : string;
  completed : bool;
  createdAt : Date;
  updatedAt : Date
}.

(** The collection behind the model. *)
Record Collection := {
  docs : list t;
  nextId : ObjectId
}.

(** What [new Todo({ title })] holds before it is saved: the supplied
    title, if any, and [completed] with its schema default. *)
Record Draft := {
  draft_title : option string;
  draft_completed : bool
}.

Definition new (title : option string) : Draft :=
  {| draft_title := title; draft_completed := false |}.

(** [title: { type: String, required: true }]: a string path is present
    when it is a string of positive length. *)
Definition required (v : option string) : bool :=
  match v with
  | Some (String _ _) => true
  | _ => false
  end.

Definition validation_message : string :=
  "Todo validation failed: title: Path `title` is required.".

(** [todo.save()]: validate, then insert with a fresh identifier and both
    timestamps set to the same instant. *)
Definition save (now : Date) (d : Draft) (db : Collection)
  : settled t * Collection :=
  match draft_title d with
  | Some s =>
      if required (draft_title d) then
        let todo := {| _id := nextId db;
                       title := s;
                       completed := draft_completed d;
                       createdAt := now;
                       updatedAt := now |} in
        (Fulfilled todo,
         {| docs := docs db ++ [todo]; nextId := N.succ (nextId db) |})
      else (Rejected validation_message, db)
  | None => (Rejected validation_message, db)
  end.

(** [.sort({ createdAt: -1 })]: newest first.  The database does not say
    how it orders documents with the same [createdAt]; here they keep
    their insertion order. *)
Fixpoint insert_desc (d : t) (l : list t) : list t :=
  match l with
  | [] => [d]
  | x :: r =>
      if createdAt x <=? createdAt d then d :: x :: r
      else x :: insert_desc d r
  end.

Fixpoint sort_createdAt_desc (l : list t) : list t :=
  match l with
  | [] => []
  | d :: r => insert_desc d (sort_createdAt_desc r)
  end.

(** [Todo.find().sort({ createdAt: -1 })] *)
Definition find_sorted (db : Collection) : settled (list t) * Collection :=
  (Fulfilled (sort_createdAt_desc (docs db)), db).

(** [Todo.findById(id)]: the first document with that identifier, or
    [null]. *)
Definition findById (id : ObjectId) (db : Collection) : option t :=
  find (fun d => N.eqb (_id d) id) (docs db).

(** The body of an update request: any subset of [{ title, completed }]. *)
Record Updates := {
  set_title : option string;
  set_completed : option bool
}.

(** The update applied to a matched document: the supplied paths are
    [$set], the others are kept, and the timestamps plugin sets
    [updatedAt].  No validator runs on updates. *)
Definition applyUpdates (now : Date) (u : Updates) (d : t) : t :=
  {| _id := _id d;
     title := match set_title u with Some s => s | None => title d end;
     completed :=
       match set_completed u with Some b => b | None => completed d end;
     createdAt := createdAt d;
     updatedAt := now |}.

Fixpoint updateOne (id : ObjectId) (f : t -> t) (l : list t)
  : option t * list t :=
  match l with
  | [] => (None, [])
  | d :: r =>
      if N.eqb (_id d) id then (Some (f d), f d :: r)
      else let (found, r') := updateOne id f r in (found, d :: r')
  end.

(** [Todo.findByIdAndUpdate(id, updates, { new: true })]: resolves to the
    document after the update, or to [null] when nothing matches. *)
Definition findByIdAndUpdate (id : ObjectId) (u : Updates) (now : Date)
    (db : Collection) : settled (option t) * Collection :=
  let (found, l) := updateOne id (applyUpdates now u) (docs db) in
  (Fulfilled found, {| docs := l; nextId := nextId db |}).

Fixpoint deleteOne (id : ObjectId) (l : list t) : option t * list t :=
  match l with
  | [] => (None, [])
  | d :: r =>
      if N.eqb (_id d) id then (Some d, r)
      else let (found, r') := deleteOne id r in (found, d :: r')
  end.

(** [Todo.findByIdAndDelete(id)]: resolves to the removed document, or to
    [null] when nothing matches. *)
Definition findByIdAndDelete (id : ObjectId) (db : Collection)
  : settled (option t) * Collection :=
  let (found, l) := deleteOne id (docs db) in
  (Fulfilled found, {| docs := l; nextId := nextId db |}).

(** Identifiers of a collection. *)
Definition ids (l : list t) : list ObjectId := map _id l.

(** A collection as the database keeps it: identifiers are pairwise
    distinct and all of them were drawn from the counter. *)
Definition wf (db : Collection) : Prop :=
  NoDup (ids (docs db)) /\
  Forall (fun d => (_id d < nextId db)%N) (docs db).

Definition empty : Collection := {| docs := []; nextId := 0%N |}.

End Todo.

(** ** The service: the Express router *)

Module Routes.

(** An HTTP response: [res.json(x)] answers 200, [res.status(n).json(x)]
    answers [n].  The two error shapes carry [{ error: message }]. *)
Inductive response (A : Type) : Type :=
| Ok (body : A)
| Created (body : A)
| BadRequest (error : string)
| InternalServerError (error : string).
Arguments Ok {A} body.
Arguments Created {A} body.
Arguments BadRequest {A} error.
Arguments InternalServerError {A} error.

Definition status {A} (r : response A) : Z :=
  match r with
  | Ok _ => 200
  | Created _ => 201
  | BadRequest _ => 400
  | InternalServerError _ => 500
  end.

(** [{ message: ... }] *)
Record Confirmation := { message : string }.

(** [await p] inside [try]: when the driver fails (lost connection,
    identifier that cannot be cast, ...) the promise rejects with the
    driver's message and the collection is left as it was. *)
Definition await {A} (fault : option string)
    (p : Todo.Collection -> settled A * Todo.Collection)
    (db : Todo.Collection) : settled A * Todo.Collection :=
  match fault with
  | Some message => (Rejected message, db)
  | None => p db
  end.

(** [!title] for a title that is absent or a string. *)
Definition falsy (title : option string) : bool :=
  match title with
  | None => true
  | Some EmptyString => true
  | Some (String _ _) => false
  end.

(** [router.get("/")] *)
Definition get (fault : option string) (db : Todo.Collection)
  : response (list Todo.t) * Todo.Collection :=
  match await fault Todo.find_sorted db with
  | (Fulfilled todos, db') => (Ok todos, db')
  | (Rejected err, db') => (InternalServerError err, db')
  end.

(** [router.post("/")]; [title] is [req.body.title], which the interface
    types as a string: it is either absent or a string. *)
Definition post (fault : option string) (now : Date)
    (title : option string) (db : Todo.Collection)
  : response Todo.t * Todo.Collection :=
  if falsy title then (BadRequest "Title required", db)
  else
    let todo := Todo.new title in
    match await fault (Todo.save now todo) db with
    | (Fulfilled saved, db') => (Created saved, db')
    | (Rejected err, db') => (InternalServerError err, db')
    end.

(** [router.put("/:id")]; [updates] is [req.body]. *)
Definition put (fault : option string) (now : Date) (id : ObjectId)
    (updates : Todo.Updates) (db : Todo.Collection)
  : response (option Todo.t) * Todo.Collection :=
  match await fault (Todo.findByIdAndUpdate id updates now) db with
  | (Fulfilled todo, db') => (Ok todo, db')
  | (Rejected err, db') => (InternalServerError err, db')
  end.

(** [router.delete("/:id")] *)
Definition delete (fault : option string) (id : ObjectId)
    (db : Todo.Collection)
  : response Confirmation * Todo.Collection :=
  match await fault (Todo.findByIdAndDelete id) db with
  | (Fulfilled _, db') =>
      (Ok {| message := "Todo deleted successfully" |}, db')
  | (Rejected err, db') => (InternalServerError err, db')
  end.

(** A request to [/api/todos]. *)
Inductive request : Type :=
| GET
| POST (title : option string)
| PUT (id : ObjectId) (updates : Todo.Updates)
| DELETE (id : ObjectId).

(** What the outside world contributes to one request: the server's
    clock and whether the driver fails. *)
Record Env := { now : Date; fault : option string }.

(** The effect of one request on the collection. *)
Definition serve (e : Env) (r : request) (db : Todo.Collection)
  : Todo.Collection :=
  match r with
  | GET => snd (get (fault e) db)
  | POST title => snd (post (fault e) (now e) title db)
  | PUT id updates => snd (put (fault e) (now e) id updates db)
  | DELETE id => snd (delete (fault e) id db)
  end.

Fixpoint serveAll (rs : list (Env * request)) (db : Todo.Collection)
  : Todo.Collection :=
  match rs with
  | [] => db
  | (e, r) :: rest => serveAll rest (serve e r db)
  end.

End Routes.

(** ** The client: [api.js] and [App.jsx] *)

Module App.

(** [axios] resolves with [response.data] on a 2xx status and rejects on
    any other. *)
Definition axios {A} (r : Routes.response A) : settled A :=
  match r with
  | Routes.Ok data => Fulfilled data
  | Routes.Created data => Fulfilled data
  | Routes.BadRequest _ => Rejected "Request failed with status code 400"
  | Routes.InternalServerError _ =>
      Rejected "Request failed with status code 500"
  end.

(** A handler that [await]s at most one call of [api.js]: either it is
    done, or it issues one request and continues with the settled
    promise. *)
Inductive task (X : Type) : Type :=
| Return (x : X)
| apiGetTodos (k : settled (list Todo.t) -> X)
| apiCreateTodo (title : string) (k : settled Todo.t -> X)
| apiUpdateTodo (id : ObjectId) (updates : Todo.Updates)
    (k : settled (option Todo.t) -> X)
| apiDeleteTodo (id : ObjectId) (k : settled Routes.Confirmation -> X).
Arguments Return {X} x.
Arguments apiGetTodos {X} k.
Arguments apiCreateTodo {X} title k.
Arguments apiUpdateTodo {X} id updates k.
Arguments apiDeleteTodo {X} id k.

(** The request a task sends, if any. *)
Definition issued {X} (t : task X) : option Routes.request :=
  match t with
  | Return _ => None
  | apiGetTodos _ => Some Routes.GET
  | apiCreateTodo title _ => Some (Routes.POST (Some title))
  | apiUpdateTodo id updates _ => Some (Routes.PUT id updates)
  | apiDeleteTodo id _ => Some (Routes.DELETE id)
  end.

(** The five [useState] cells of the component. *)
Record State := {
  todos : list Todo.t;
  title : string;
  loading : bool;
  editingId : option ObjectId;
  editedTitle : string
}.

Definition initialState : State :=
  {| todos := []; title := ""; loading := true;
     editingId := None; editedTitle := "" |}.

Definition setTodos (v : list Todo.t) (s : State) : State :=
  {| todos := v; title := title s; loading := loading s;
     editingId := editingId s; editedTitle := editedTitle s |}.
Definition setTitle (v : string) (s : State) : State :=
  {| todos := todos s; title := v; loading := loading s;
     editingId := editingId s; editedTitle := editedTitle s |}.
Definition setLoading (v : bool) (s : State) : State :=
  {| todos := todos s; title := title s; loading := v;
     editingId := editingId s; editedTitle := editedTitle s |}.
Definition setEditingId (v : option ObjectId) (s : State) : State :=
  {| todos := todos s; title := title s; loading := loading s;
     editingId := v; editedTitle := editedTitle s |}.
Definition setEditedTitle (v : string) (s : State) : State :=
  {| todos := todos s; title := title s; loading := loading s;
     editingId := editingId s; editedTitle := v |}.

(** What the component shows after a handler has run: the next state, or
    nothing when rendering throws. *)
Inductive ui : Type :=
| Rendered (s : State)
| Crashed.

(** [String.prototype.trim] on code units below 256: tab, line feed,
    vertical tab, form feed, carriage return, space and no-break space
    are white space. *)
Definition isWhiteSpace (c : ascii) : bool :=
  let n := nat_of_ascii c in
  ((9 <=? n) && (n <=? 13) || (n =? 32) || (n =? 160))%nat.

Fixpoint trimStart (s : string) : string :=
  match s with
  | EmptyString => EmptyString
  | String c r => if isWhiteSpace c then trimStart r else s
  end.

Fixpoint trimEnd (s : string) : string :=
  match s with
  | EmptyString => EmptyString
  | String c r =>
      match trimEnd r with
      | EmptyString => if isWhiteSpace c then EmptyString
                       else String c EmptyString
      | r' => String c r'
      end
  end.

Definition trim (s : string) : string := trimEnd (trimStart s).

(** [!s] for a string. *)
Definition isEmpty (s : string) : bool :=
  match s with EmptyString => true | String _ _ => false end.

(** [fetchTodos] *)
Definition fetchTodos (s : State) : task ui :=
  apiGetTodos (fun response =>
    match response with
    | Fulfilled data => Rendered (setLoading false (setTodos data s))
    | Rejected _ => Rendered (setLoading false s)
    end).

(** [handleAddTodo] *)
Definition handleAddTodo (s : State) : task ui :=
  if isEmpty (trim (title s)) then Return (Rendered s)
  else
    apiCreateTodo (trim (title s)) (fun response =>
      match response with
      | Fulfilled data =>
          Rendered (setTitle "" (setTodos (data :: todos s) s))
      | Rejected _ => Rendered s
      end).

(** [prev.map((t) => (t._id === id ? data : t))] *)
Definition replaceById (id : ObjectId) (data : Todo.t) (prev : list Todo.t)
  : list Todo.t :=
  map (fun t => if N.eqb (Todo._id t) id then data else t) prev.

(** [handleToggle].  When the service answers 200 with [null], reading
    [response.data._id] throws as soon as the list has an element. *)
Definition handleToggle (todo : Todo.t) (s : State) : task ui :=
  apiUpdateTodo (Todo._id todo)
    {| Todo.set_title := None;
       Todo.set_completed := Some (negb (Todo.completed todo)) |}
    (fun response =>
      match response with
      | Fulfilled (Some data) =>
          Rendered (setTodos (replaceById (Todo._id data) data (todos s)) s)
      | Fulfilled None =>
          match todos s with
          | [] => Rendered (setTodos [] s)
          | _ :: _ => Crashed
          end
      | Rejected _ => Rendered s
      end).

(** [handleDelete] *)
Definition handleDelete (id : ObjectId) (s : State) : task ui :=
  apiDeleteTodo id (fun response =>
    match response with
    | Fulfilled _ =>
        Rendered
          (setTodos
             (filter (fun t => negb (N.eqb (Todo._id t) id)) (todos s)) s)
    | Rejected _ => Rendered s
    end).

(** [startEditing] *)
Definition startEditing (todo : Todo.t) (s : State) : State :=
  setEditedTitle (Todo.title todo) (setEditingId (Some (Todo._id todo)) s).

(** [cancelEditing] *)
Definition cancelEditing (s : State) : State :=
  setEditedTitle "" (setEditingId None s).

(** [saveEditedTodo].  When the service answers 200 with [null] and the
    list has a record with that identifier, the record is replaced by
    [null] and the next render throws on [todo._id]. *)
Definition saveEditedTodo (id : ObjectId) (s : State) : task ui :=
  if isEmpty (trim (editedTitle s)) then Return (Rendered s)
  else
    apiUpdateTodo id
      {| Todo.set_title := Some (trim (editedTitle s));
         Todo.set_completed := None |}
      (fun response =>
        match response with
        | Fulfilled (Some data) =>
            Rendered
              (cancelEditing (setTodos (replaceById id data (todos s)) s))
        | Fulfilled None =>
            if existsb (fun t => N.eqb (Todo._id t) id) (todos s)
            then Crashed
            else Rendered (cancelEditing s)
        | Rejected _ => Rendered s
        end).

(** The three branches of the render. *)
Inductive view : Type :=
| LoadingMessage
| EmptyMessage
| TodoList (items : list Todo.t).

Definition render (s : State) : view :=
  if loading s then LoadingMessage
  else match todos s with
       | [] => EmptyMessage
       | _ :: _ => TodoList (todos s)
       end.

(** [editingId === todo._id]: the item is drawn with the edit input and
    the Save and Cancel buttons. *)
Definition inEditMode (s : State) (todo : Todo.t) : bool :=
  match editingId s with
  | Some id => N.eqb id (Todo._id todo)
  | None => false
  end.

(** What can happen to a running client. *)
Inductive event : Type :=
| Mount
| ChangeTitle (value : string)
| Submit
| ChangeCheckbox (todo : Todo.t)
| ClickEdit (todo : Todo.t)
| ChangeEditedTitle (value : string)
| ClickSave (id : ObjectId)
| ClickCancel
| ClickDelete (id : ObjectId)
| Elsewhere (r : Routes.request).

(** The handler bound to each event. *)
Definition handler (ev : event) (s : State) : task ui :=
  match ev with
  | Mount => fetchTodos s
  | ChangeTitle value => Return (Rendered (setTitle value s))
  | Submit => handleAddTodo s
  | ChangeCheckbox todo => handleToggle todo s
  | ClickEdit todo => Return (Rendered (startEditing todo s))
  | ChangeEditedTitle value => Return (Rendered (setEditedTitle value s))
  | ClickSave id => saveEditedTodo id s
  | ClickCancel => Return (Rendered (cancelEditing s))
  | ClickDelete id => handleDelete id s
  | Elsewhere _ => Return (Rendered s)
  end.

(** An item of the list is on screen. *)
Definition onScreen (s : State) (todo : Todo.t) : Prop :=
  loading s = false /\ In todo (todos s).

(** The controls the render offers: the effect runs on mount, the form is
    always there, each item has its checkbox, an item in edit mode has
    the input, Save and Cancel, any other item has Edit and Delete.  A
    request of another client may arrive at any time. *)
Inductive enabled (s : State) : event -> Prop :=
| en_Mount : loading s = true -> enabled s Mount
| en_ChangeTitle value : enabled s (ChangeTitle value)
| en_Submit : enabled s Submit
| en_ChangeCheckbox todo : onScreen s todo -> enabled s (ChangeCheckbox todo)
| en_ClickEdit todo :
    onScreen s todo -> inEditMode s todo = false ->
    enabled s (ClickEdit todo)
| en_ChangeEditedTitle todo value :
    onScreen s todo -> inEditMode s todo = true ->
    enabled s (ChangeEditedTitle value)
| en_ClickSave todo :
    onScreen s todo -> inEditMode s todo = true ->
    enabled s (ClickSave (Todo._id todo))
| en_ClickCancel todo :
    onScreen s todo -> inEditMode s todo = true -> enabled s ClickCancel
| en_ClickDelete todo :
    onScreen s todo -> inEditMode s todo = false ->
    enabled s (ClickDelete (Todo._id todo))
| en_Elsewhere r : enabled s (Elsewhere r).

(** The world around one handler run: the service's clock and driver,
    and whether the request gets through at all. *)
Record Env := { server : Routes.Env; online : bool }.

Definition networkError {A} : settled A := Rejected "Network Error".

(** Run a task against the service. *)
Definition perform {X} (e : Env) (t : task X) (db : Todo.Collection)
  : X * Todo.Collection :=
  let fault := Routes.fault (server e) in
  let now := Routes.now (server e) in
  match t with
  | Return x => (x, db)
  | apiGetTodos k =>
      if online e then
        let (r, db') := Routes.get fault db in (k (axios r), db')
      else (k networkError, db)
  | apiCreateTodo title k =>
      if online e then
        let (r, db') := Routes.post fault now (Some title) db in
        (k (axios r), db')
      else (k networkError, db)
  | apiUpdateTodo id updates k =>
      if online e then
        let (r, db') := Routes.put fault now id updates db in
        (k (axios r), db')
      else (k networkError, db)
  | apiDeleteTodo id k =>
      if online e then
        let (r, db') := Routes.delete fault id db in (k (axios r), db')
      else (k networkError, db)
  end.

(** One event of the whole system: client state and collection. *)
Definition step (e : Env) (ev : event) (s : State) (db : Todo.Collection)
  : ui * Todo.Collection :=
  match ev with
  | Elsewhere r => (Rendered s, Routes.serve (server e) r db)
  | _ => perform e (handler ev s) db
  end.

(** The states of a client started against a well-formed collection. *)
Inductive reachable : State -> Todo.Collection -> Prop :=
| reach_start db : Todo.wf db -> reachable initialState db
| reach_step s db e ev s' db' :
    reachable s db ->
    enabled s ev ->
    step e ev s db = (Rendered s', db') ->
    reachable s' db'.

End App.

(** * Vocabulary of the properties *)

(** Newest first: every document is at least as recent as those after it. *)
Definition newestFirst (l : list Todo.t) : Prop :=
  StronglySorted (fun a b => Todo.createdAt b <= Todo.createdAt a) l.

(** A title that is absent, empty or made of white space only. *)
Definition blank (title : option string) : Prop :=
  match title with
  | None => True
  | Some s => App.trim s = ""
  end.

(** The number of items of the list drawn in edit mode. *)
Definition editedItems (s : App.State) : nat :=
  List.length (filter (App.inEditMode s) (App.todos s)).

(** What ties a client to the collection it talks to: the collection is
    well formed, the client holds no identifier twice, and every identifier
    it holds was drawn from the collection's counter. *)
Definition coherent (s : App.State) (db : Todo.Collection) : Prop :=
  Todo.wf db /\
  NoDup (Todo.ids (App.todos s)) /\
  Forall (fun id => (id < Todo.nextId db)%N) (Todo.ids (App.todos s)).

(** A request that reaches a service whose driver works. *)
Definition healthy (e : App.Env) : Prop :=
  App.online e = true /\ Routes.fault (App.server e) = None.

(** Sample data for the executable checks. *)
Definition milk : Todo.t :=
  {| Todo._id := 0%N; Todo.title := "Buy milk"; Todo.completed := false;
     Todo.createdAt := 1000; Todo.updatedAt := 1000 |}.
Definition milkDone : Todo.t :=
  {| Todo._id := 0%N; Todo.title := "Buy milk"; Todo.completed := true;
     Todo.createdAt := 1000; Todo.updatedAt := 1000 |}.
Definition eggs : Todo.t :=
  {| Todo._id := 1%N; Todo.title := "Buy eggs"; Todo.completed := false;
     Todo.createdAt := 2000; Todo.updatedAt := 2000 |}.
Definition bread : Todo.t :=
  {| Todo._id := 2%N; Todo.title := "Bake bread"; Todo.completed := true;
     Todo.createdAt := 3000; Todo.updatedAt := 3500 |}.
Definition pantry : Todo.Collection :=
  {| Todo.docs := [milk; eggs; bread]; Todo.nextId := 3%N |}.

Definition at_ (now : Date) : App.Env :=
  {| App.server := {| Routes.now := now; Routes.fault := None |};
     App.online := true |}.
Definition offline : App.Env :=
  {| App.server := {| Routes.now := 0; Routes.fault := None |};
     App.online := false |}.
Definition listed : App.State :=
  {| App.todos := [bread; eggs; milk]; App.title := ""; App.loading := false;
     App.editingId := None; App.editedTitle := "" |}.
Definition editingEggs : App.State :=
  {| App.todos := [bread; eggs; milk]; App.title := ""; App.loading := false;
     App.editingId := Some 1%N; App.editedTitle := "Buy eggs" |}.
Definition editingBread : App.State :=
  {| App.todos := [bread; eggs; milk]; App.title := ""; App.loading := false;
     App.editingId := Some 2%N; App.editedTitle := "Bake bread" |}.

(** ** Further vocabulary *)

(** Every stored title is a non-empty string. *)
Definition titlesPresent (db : Todo.Collection) : Prop :=
  Forall (fun d => Todo.title d <> "") (Todo.docs db).

(** No record was updated before it was created. *)
Definition timely (db : Todo.Collection) : Prop :=
  Forall (fun d => Todo.createdAt d <= Todo.updatedAt d) (Todo.docs db).

(** The clock reads later than the creation of every stored record. *)
Definition after (now : Date) (db : Todo.Collection) : Prop :=
  Forall (fun d => Todo.createdAt d < now) (Todo.docs db).

(** The clock does not read earlier than the creation of a stored
    record. *)
Definition notBefore (now : Date) (db : Todo.Collection) : Prop :=
  Forall (fun d => Todo.createdAt d <= now) (Todo.docs db).

(** [t._id !== id] *)
Definition otherThan (id : ObjectId) (t : Todo.t) : bool :=
  negb (N.eqb (Todo._id t) id).

(** A string made of white space only; the empty string is one. *)
Fixpoint allWhiteSpace (s : string) : bool :=
  match s with
  | EmptyString => true
  | String c r => App.isWhiteSpace c && allWhiteSpace r
  end.

(** The string begins with white space. *)
Definition headWhite (s : string) : bool :=
  match s with
  | EmptyString => false
  | String c _ => App.isWhiteSpace c
  end.

(** The title a request carries in its body, if any. *)
Definition title_sent (r : Routes.request) : option string :=
  match r with
  | Routes.POST title => title
  | Routes.PUT _ updates => Todo.set_title updates
  | _ => None
  end.

(** The client shows exactly the stored records, newest first. *)
Definition inStep (s : App.State) (db : Todo.Collection) : Prop :=
  Permutation (App.todos s) (Todo.docs db) /\ newestFirst (App.todos s).

(** An event of this client, as opposed to a request from elsewhere. *)
Definition ownEvent (ev : App.event) : bool :=
  match ev with
  | App.Elsewhere _ => false
  | _ => true
  end.

(** The events that begin, change, save or cancel an edit. *)
Definition editEvent (ev : App.event) : bool :=
  match ev with
  | App.ClickEdit _ | App.ChangeEditedTitle _
  | App.ClickSave _ | App.ClickCancel => true
  | _ => false
  end.

(** What a task does when its request is rejected with [message]; a task
    that sends nothing is simply done. *)
Definition rejectedWith {X} (message : string) (t : App.task X) : X :=
  match t with
  | App.Return x => x
  | App.apiGetTodos k => k (Rejected message)
  | App.apiCreateTodo _ k => k (Rejected message)
  | App.apiUpdateTodo _ _ k => k (Rejected message)
  | App.apiDeleteTodo _ k => k (Rejected message)
  end.

(** More sample data. *)
Definition walkTheDog : Routes.request := Routes.POST (Some "Walk the dog").
Definition twoRequests : list (Routes.Env * Routes.request) :=
  [({| Routes.now := 4000; Routes.fault := None |}, walkTheDog);
   ({| Routes.now := 5000; Routes.fault := None |}, Routes.DELETE 1%N)].
Definition typing : App.State := App.setTitle " Walk the dog " listed.
Definition blankDraft : App.State := App.setEditedTitle "   " editingEggs.

(** * Properties *)

(** ** The collection *)

Section Collection.

Import Todo.

Lemma insert_desc_perm d l : Permutation (insert_desc d l) (d :: l).
Proof.
  induction l as [|x r IH]; simpl.
  - apply Permutation_refl.
  - destruct (createdAt x <=? createdAt d).
    + apply Permutation_refl.
    + eapply perm_trans; [apply perm_skip, IH | apply perm_swap].
Qed.

Lemma sort_perm l : Permutation (sort_createdAt_desc l) l.
Proof.
  induction l as [|d r IH]; simpl.
  - constructor.
  - eapply perm_trans; [apply insert_desc_perm | apply perm_skip, IH].
Qed.

Lemma insert_desc_sorted d l :
  newestFirst l -> newestFirst (insert_desc d l).
Proof.
  unfold newestFirst.
  induction l as [|x r IH]; simpl; intros Hs.
  - repeat constructor.
  - inversion Hs as [|? ? Hr Hx]; subst.
    destruct (createdAt x <=? createdAt d) eqn:E.
    + apply Z.leb_le in E. constructor; [exact Hs|].
      constructor; [exact E|].
      eapply Forall_impl; [|exact Hx]. simpl. intros a Ha. lia.
    + apply Z.leb_gt in E. constructor; [apply IH, Hr|].
      eapply Permutation_Forall.
      * apply Permutation_sym, insert_desc_perm.
      * constructor; [lia | exact Hx].
Qed.

Lemma sort_sorted l : newestFirst (sort_createdAt_desc l).
Proof.
  induction l as [|d r IH]; simpl.
  - constructor.
  - apply insert_desc_sorted, IH.
Qed.

(** Two newest-first arrangements of the same documents agree as soon as
    one of them has no two documents of the same age. *)
Lemma newestFirst_unique l1 :
  forall l2,
    newestFirst l1 ->
    StronglySorted (fun a b => createdAt b < createdAt a) l2 ->
    Permutation l1 l2 -> l1 = l2.
Proof.
  unfold newestFirst.
  induction l1 as [|a r1 IH]; intros l2 H1 H2 P.
  - apply Permutation_nil in P. now subst.
  - destruct l2 as [|b r2].
    + apply Permutation_sym, Permutation_nil in P. discriminate.
    + inversion H1 as [|? ? Hr1 Ha]; subst.
      inversion H2 as [|? ? Hr2 Hb]; subst.
      assert (Hab : a = b).
      { assert (Ia : In a (b :: r2))
          by (eapply Permutation_in; [exact P | now left]).
        assert (Ib : In b (a :: r1))
          by (eapply Permutation_in;
              [apply Permutation_sym; exact P | now left]).
        destruct Ia as [->|Ia]; [reflexivity|].
        destruct Ib as [->|Ib]; [reflexivity|].
        rewrite Forall_forall in Ha, Hb.
        specialize (Ha _ Ib). specialize (Hb _ Ia). simpl in *. lia. }
      subst b. f_equal. apply IH; try assumption.
      eapply Permutation_cons_inv; exact P.
Qed.

Lemma find_none_ids id l :
  find (fun d => N.eqb (_id d) id) l = None <-> ~ In id (ids l).
Proof.
  induction l as [|d r IH]; simpl.
  - tauto.
  - destruct (N.eqb_spec (_id d) id) as [E|E].
    + split; [discriminate | intros H; exfalso; apply H; now left].
    + rewrite IH. tauto.
Qed.

Lemma find_some_ids id l d :
  find (fun d => N.eqb (_id d) id) l = Some d -> In d l /\ _id d = id.
Proof.
  intros H. apply find_some in H. destruct H as [Hin E].
  apply N.eqb_eq in E. now split.
Qed.

Lemma updateOne_ids id f l :
  (forall d, _id (f d) = _id d) ->
  ids (snd (updateOne id f l)) = ids l.
Proof.
  intros Hf. induction l as [|d r IH]; simpl.
  - reflexivity.
  - destruct (N.eqb (_id d) id); simpl.
    + now rewrite Hf.
    + destruct (updateOne id f r) as [found r']. simpl in *. now rewrite IH.
Qed.

Lemma updateOne_found id f l :
  fst (updateOne id f l)
  = option_map f (find (fun d => N.eqb (_id d) id) l).
Proof.
  induction l as [|d r IH]; simpl.
  - reflexivity.
  - destruct (N.eqb (_id d) id); simpl.
    + reflexivity.
    + destruct (updateOne id f r) as [found r']. exact IH.
Qed.

Lemma updateOne_find id f l :
  (forall d, _id (f d) = _id d) ->
  find (fun d => N.eqb (_id d) id) (snd (updateOne id f l))
  = option_map f (find (fun d => N.eqb (_id d) id) l).
Proof.
  intros Hf. induction l as [|d r IH]; simpl.
  - reflexivity.
  - destruct (N.eqb (_id d) id) eqn:E; simpl.
    + now rewrite Hf, E.
    + destruct (updateOne id f r) as [found r']. simpl in *.
      now rewrite E.
Qed.

Lemma updateOne_missing id f l :
  find (fun d => N.eqb (_id d) id) l = None -> updateOne id f l = (None, l).
Proof.
  induction l as [|d r IH]; simpl.
  - reflexivity.
  - destruct (N.eqb (_id d) id); [discriminate|].
    intros H. now rewrite (IH H).
Qed.

Lemma updateOne_in id f l d :
  In d (snd (updateOne id f l)) -> In d l \/ exists d0, In d0 l /\ d = f d0.
Proof.
  induction l as [|x r IH]; simpl.
  - tauto.
  - destruct (N.eqb (_id x) id); simpl.
    + intros [<-|H]; [right; exists x; auto | auto].
    + destruct (updateOne id f r) as [found r']. simpl in *.
      intros [<-|H]; [auto|].
      destruct (IH H) as [H'|[d0 [H0 ->]]]; [auto|].
      right. exists d0. auto.
Qed.

Lemma deleteOne_incl id l d : In d (snd (deleteOne id l)) -> In d l.
Proof.
  induction l as [|x r IH]; simpl.
  - tauto.
  - destruct (N.eqb (_id x) id); simpl.
    + auto.
    + destruct (deleteOne id r) as [found r']. simpl in *.
      intros [<-|H]; auto.
Qed.

Lemma deleteOne_nodup id l :
  NoDup (ids l) -> NoDup (ids (snd (deleteOne id l))).
Proof.
  induction l as [|x r IH]; simpl; intros H.
  - constructor.
  - inversion H as [|? ? Hx Hr]; subst.
    destruct (N.eqb (_id x) id); simpl; [exact Hr|].
    destruct (deleteOne id r) as [found r'] eqn:E. simpl in *.
    constructor; [|apply IH, Hr].
    intros Hin. apply Hx. unfold ids in *.
    apply in_map_iff in Hin. destruct Hin as [d [Hd Hin]].
    apply in_map_iff. exists d. split; [exact Hd|].
    apply (deleteOne_incl id). now rewrite E.
Qed.

Lemma deleteOne_gone id l :
  NoDup (ids l) -> ~ In id (ids (snd (deleteOne id l))).
Proof.
  induction l as [|x r IH]; simpl; intros H.
  - tauto.
  - inversion H as [|? ? Hx Hr]; subst.
    destruct (N.eqb_spec (_id x) id) as [E|E]; simpl.
    + now rewrite <- E.
    + destruct (deleteOne id r) as [found r'] eqn:E'. simpl in *.
      intros [Hid|Hin]; [contradiction|]. now apply IH.
Qed.

Lemma deleteOne_found id l :
  fst (deleteOne id l) = find (fun d => N.eqb (_id d) id) l.
Proof.
  induction l as [|d r IH]; simpl.
  - reflexivity.
  - destruct (N.eqb (_id d) id); simpl; [reflexivity|].
    destruct (deleteOne id r) as [found r']. exact IH.
Qed.

End Collection.

(** ** The service *)

Section Service.

Import Todo.

Lemma get_keeps fault db : snd (Routes.get fault db) = db.
Proof. unfold Routes.get, Routes.await. now destruct fault. Qed.

Lemma get_ok db :
  Routes.get None db = (Routes.Ok (sort_createdAt_desc (docs db)), db).
Proof. reflexivity. Qed.

Lemma post_ok now c s db :
  Routes.post None now (Some (String c s)) db
  = (Routes.Created
       {| _id := nextId db; title := String c s; completed := false;
          createdAt := now; updatedAt := now |},
     {| docs := docs db ++
                [{| _id := nextId db; title := String c s;
                    completed := false; createdAt := now;
                    updatedAt := now |}];
        nextId := N.succ (nextId db) |}).
Proof. reflexivity. Qed.

Lemma put_ok now id u db :
  Routes.put None now id u db
  = (Routes.Ok (option_map (applyUpdates now u) (findById id db)),
     {| docs := snd (updateOne id (applyUpdates now u) (docs db));
        nextId := nextId db |}).
Proof.
  unfold Routes.put, Routes.await, findByIdAndUpdate, findById.
  rewrite <- updateOne_found.
  now destruct (updateOne id (applyUpdates now u) (docs db)).
Qed.

Lemma delete_ok id db :
  Routes.delete None id db
  = (Routes.Ok {| Routes.message := "Todo deleted successfully" |},
     {| docs := snd (deleteOne id (docs db)); nextId := nextId db |}).
Proof.
  unfold Routes.delete, Routes.await, findByIdAndDelete.
  now destruct (deleteOne id (docs db)).
Qed.

Lemma post_faulty m now title db :
  snd (Routes.post (Some m) now title db) = db.
Proof. unfold Routes.post. now destruct (Routes.falsy title). Qed.

Lemma post_falsy fault now title db :
  Routes.falsy title = true ->
  Routes.post fault now title db = (Routes.BadRequest "Title required", db).
Proof. unfold Routes.post. now intros ->. Qed.

(** Every request keeps the collection well formed and never takes an
    identifier back. *)
Lemma serve_wf e r db :
  wf db ->
  wf (Routes.serve e r db) /\
  (nextId db <= nextId (Routes.serve e r db))%N.
Proof.
  intros [Hn Hb]. destruct e as [now [m|]]; destruct r as [|t|id u|id];
    cbn [Routes.serve Routes.fault Routes.now].
  - rewrite get_keeps. split; [now split | lia].
  - rewrite post_faulty. split; [now split | lia].
  - unfold Routes.put, Routes.await. simpl. split; [now split | lia].
  - unfold Routes.delete, Routes.await. simpl. split; [now split | lia].
  - rewrite get_keeps. split; [now split | lia].
  - destruct t as [[|c s]|].
    + rewrite post_falsy by reflexivity. simpl. split; [now split | lia].
    + rewrite post_ok. simpl. split; [|lia]. split; simpl.
      * unfold ids. rewrite map_app. simpl.
        apply NoDup_app; [exact Hn | repeat constructor; simpl; tauto |].
        intros x Hx [<-|[]]. apply in_map_iff in Hx.
        destruct Hx as [d [Hd Hin]]. rewrite Forall_forall in Hb.
        specialize (Hb _ Hin). simpl in Hb. lia.
      * apply Forall_app. split.
        -- eapply Forall_impl; [|exact Hb]. simpl. intros. lia.
        -- repeat constructor. simpl. lia.
    + rewrite post_falsy by reflexivity. simpl. split; [now split | lia].
  - rewrite put_ok. simpl. split; [|lia]. split; simpl.
    + now rewrite updateOne_ids.
    + rewrite Forall_forall in *. intros d Hd.
      apply updateOne_in in Hd. destruct Hd as [Hd|[d0 [Hd ->]]].
      * now apply Hb.
      * simpl. now apply Hb.
  - rewrite delete_ok. simpl. split; [|lia]. split; simpl.
    + now apply deleteOne_nodup.
    + rewrite Forall_forall in *. intros d Hd.
      apply deleteOne_incl in Hd. now apply Hb.
Qed.

(** An identifier below the counter that is not in the collection never
    comes back. *)
Lemma serve_gone e r db id :
  wf db -> (id < nextId db)%N -> ~ In id (ids (docs db)) ->
  ~ In id (ids (docs (Routes.serve e r db))).
Proof.
  intros [Hn Hb] Hlt Hid. destruct e as [now [m|]];
    destruct r as [|t|id' u|id']; cbn [Routes.serve Routes.fault Routes.now].
  - now rewrite get_keeps.
  - now rewrite post_faulty.
  - exact Hid.
  - exact Hid.
  - now rewrite get_keeps.
  - destruct t as [[|c s]|].
    + now rewrite post_falsy by reflexivity.
    + rewrite post_ok. simpl. unfold ids. rewrite map_app, in_app_iff.
      simpl. intros [H|[H|[]]]; [now apply Hid | lia].
    + now rewrite post_falsy by reflexivity.
  - rewrite put_ok. simpl. now rewrite updateOne_ids.
  - rewrite delete_ok. simpl. intros H. apply Hid.
    unfold ids in *. apply in_map_iff in H. destruct H as [d [Hd H]].
    apply in_map_iff. exists d. split; [exact Hd|].
    now apply (deleteOne_incl id').
Qed.

Lemma serveAll_gone rs :
  forall db id,
    wf db -> (id < nextId db)%N -> ~ In id (ids (docs db)) ->
    ~ In id (ids (docs (Routes.serveAll rs db))).
Proof.
  induction rs as [|[e r] rest IH]; simpl; intros db id Hwf Hlt Hid.
  - exact Hid.
  - destruct (serve_wf e r db Hwf) as [Hwf' Hle].
    apply IH; [exact Hwf' | lia | now apply serve_gone].
Qed.

End Service.

(** ** The four operations of the service *)

Section Operations.

Import Todo.

Lemma filter_perm {A} (f : A -> bool) l l' :
  Permutation l l' -> Permutation (filter f l) (filter f l').
Proof.
  induction 1 as [|x l l' _ IH|x y l|l l' l'' _ IH1 _ IH2]; simpl.
  - constructor.
  - destruct (f x); [now constructor | exact IH].
  - destruct (f x), (f y); try apply Permutation_refl. apply perm_swap.
  - eapply perm_trans; eassumption.
Qed.

Lemma filter_none id l :
  ~ In id (ids l) -> filter (fun d => N.eqb (_id d) id) l = [].
Proof.
  induction l as [|d r IH]; simpl; intros H.
  - reflexivity.
  - destruct (N.eqb_spec (_id d) id) as [E|E]; [tauto|].
    apply IH. tauto.
Qed.

Lemma pantry_wf : wf pantry.
Proof.
  split; simpl.
  - repeat constructor; simpl; intuition discriminate.
  - repeat constructor.
Qed.

Lemma put_missing now id u db :
  findById id db = None -> Routes.put None now id u db = (Routes.Ok None, db).
Proof.
  intros H. rewrite put_ok, H. simpl. unfold findById in H.
  rewrite (updateOne_missing _ _ _ H). now destruct db.
Qed.

(** The end-to-end scenario: create, list, complete, list, delete,
    list. *)
Example buy_milk_scenario :
  let db0 := Todo.empty in
  let db1 := snd (Routes.post None 1000 (Some "Buy milk") db0) in
  let db2 := snd (Routes.put None 2000 0%N
                    {| set_title := None; set_completed := Some true |} db1) in
  let db3 := snd (Routes.delete None 0%N db2) in
  fst (Routes.post None 1000 (Some "Buy milk") db0) = Routes.Created milk /\
  fst (Routes.get None db1) = Routes.Ok [milk] /\
  fst (Routes.put None 2000 0%N
         {| set_title := None; set_completed := Some true |} db1)
  = Routes.Ok (Some {| _id := 0%N; title := "Buy milk"; completed := true;
                       createdAt := 1000; updatedAt := 2000 |}) /\
  fst (Routes.get None db2)
  = Routes.Ok [{| _id := 0%N; title := "Buy milk"; completed := true;
                  createdAt := 1000; updatedAt := 2000 |}] /\
  fst (Routes.delete None 0%N db2)
  = Routes.Ok {| Routes.message := "Todo deleted successfully" |} /\
  fst (Routes.get None db3) = Routes.Ok [].
Proof. repeat split. Qed.

Example trim_examples :
  App.trim "  Buy milk " = "Buy milk" /\
  App.trim "   " = "" /\
  App.trim "a  b" = "a  b" /\
  App.trim "" = "".
Proof. repeat split. Qed.

(** C1, as stated, fails: a title of three spaces is blank, yet the
    service stores it and answers 201. *)
Lemma post_whitespace_title_is_created :
  blank (Some "   ") /\
  Routes.post None 1000 (Some "   ") Todo.empty
  = (Routes.Created
       {| _id := 0%N; title := "   "; completed := false;
          createdAt := 1000; updatedAt := 1000 |},
     {| docs := [{| _id := 0%N; title := "   "; completed := false;
                    createdAt := 1000; updatedAt := 1000 |}];
        nextId := 1%N |}).
Proof. split; reflexivity. Qed.

(** C1, amended: a Create request whose title is absent or empty is
    answered 400 with the error "Title required" and the collection is
    not touched, whatever the driver does; for every other title, a
    title of white space included, a working driver inserts one record
    with that title and the service returns it with status 201. *)
Theorem post_title_required
    (fault : option string) (now : Date) (title : option string)
    (db : Collection) :
  (title = None \/ title = Some "" ->
   Routes.post fault now title db
   = (Routes.BadRequest "Title required", db) /\
   Routes.status (fst (Routes.post fault now title db)) = 400) /\
  (forall s, title = Some s -> s <> "" ->
   exists todo,
     Routes.post None now title db
     = (Routes.Created todo,
        {| docs := docs db ++ [todo]; nextId := N.succ (nextId db) |}) /\
     Routes.status (fst (Routes.post None now title db)) = 201 /\
     Todo.title todo = s).
Proof.
  split.
  - intros [->| ->]; split; reflexivity.
  - intros s -> Hs. destruct s as [|c s]; [congruence|].
    eexists. rewrite post_ok. repeat split.
Qed.

Lemma post_title_required_witness :
  (Routes.post (Some "connection lost") 1000 (Some "") pantry
   = (Routes.BadRequest "Title required", pantry) /\
   Routes.status
     (fst (Routes.post (Some "connection lost") 1000 (Some "") pantry))
   = 400) /\
  exists todo,
    Routes.post None 1000 (Some "   ") pantry
    = (Routes.Created todo,
       {| docs := docs pantry ++ [todo];
          nextId := N.succ (nextId pantry) |}) /\
    Routes.status (fst (Routes.post None 1000 (Some "   ") pantry)) = 201 /\
    Todo.title todo = "   ".
Proof.
  split.
  - apply (post_title_required (Some "connection lost") 1000 (Some "") pantry).
    right. reflexivity.
  - apply (proj2 (post_title_required None 1000 (Some "   ") pantry) "   ").
    + reflexivity.
    + discriminate.
Defined.

(** C2: an Update whose id matches no record should fail with NotFound.
    The code does not: [findByIdAndUpdate] resolves to [null] and the
    route answers 200 with that [null], leaving the collection as it
    was. *)
Theorem put_unknown_id_answers_null :
  findById 7%N pantry = None /\
  Routes.put None 4000 7%N
    {| set_title := None; set_completed := Some true |} pantry
  = (Routes.Ok None, pantry) /\
  Routes.status
    (fst (Routes.put None 4000 7%N
            {| set_title := None; set_completed := Some true |} pantry))
  = 200.
Proof.
  split; [reflexivity|].
  rewrite put_missing by reflexivity. split; reflexivity.
Qed.

(** C3: Delete answers 200 with the confirmation message for every id,
    in the collection or not; its status is never anything but 200 or,
    when the driver fails, 500; and once an id that was in the
    collection is deleted, no List after any further requests shows
    it. *)
Theorem delete_confirms_any_id (id : ObjectId) (db : Collection) :
  (fst (Routes.delete None id db)
   = Routes.Ok {| Routes.message := "Todo deleted successfully" |} /\
   Routes.status (fst (Routes.delete None id db)) = 200) /\
  (forall fault,
     Routes.status (fst (Routes.delete fault id db)) = 200 \/
     Routes.status (fst (Routes.delete fault id db)) = 500) /\
  (wf db -> findById id db <> None ->
   forall rs fault todos,
     fst (Routes.get fault
            (Routes.serveAll rs (snd (Routes.delete None id db))))
     = Routes.Ok todos ->
     ~ In id (ids todos)).
Proof.
  split; [|split].
  - rewrite delete_ok. split; reflexivity.
  - intros [m|]; [right | left; rewrite delete_ok]; reflexivity.
  - intros Hwf Hin rs fault todos Hget.
    destruct fault as [m|]; [discriminate|].
    rewrite get_ok in Hget. simpl in Hget. injection Hget as <-.
    intros H. unfold ids in H. apply in_map_iff in H.
    destruct H as [d [Hd H]].
    apply (Permutation_in _ (sort_perm _)) in H.
    revert H. intros H.
    assert (Hlt : (id < nextId db)%N).
    { destruct (findById id db) as [d0|] eqn:E; [|congruence].
      apply find_some_ids in E. destruct E as [E <-].
      destruct Hwf as [_ Hb]. rewrite Forall_forall in Hb. now apply Hb. }
    pose proof (serve_wf {| Routes.now := 0; Routes.fault := None |}
                  (Routes.DELETE id) db Hwf) as [Hwf' _].
    simpl in Hwf'.
    eapply (serveAll_gone rs (snd (Routes.delete None id db)) id).
    + exact Hwf'.
    + rewrite delete_ok. exact Hlt.
    + rewrite delete_ok. simpl. apply deleteOne_gone. apply Hwf.
    + unfold ids. apply in_map_iff. exists d. split; [exact Hd | exact H].
Qed.

Lemma delete_confirms_any_id_witness :
  ~ In 1%N
      (ids (sort_createdAt_desc
              (docs (Routes.serveAll
                       [({| Routes.now := 5000; Routes.fault := None |},
                         Routes.POST (Some "Walk the dog"))]
                       (snd (Routes.delete None 1%N pantry)))))).
Proof.
  apply (proj2 (proj2 (delete_confirms_any_id 1%N pantry))
           pantry_wf ltac:(discriminate)
           [({| Routes.now := 5000; Routes.fault := None |},
             Routes.POST (Some "Walk the dog"))]
           None _ eq_refl).
Defined.

(** C4: for every non-empty title, Create answers with a record that has
    exactly that title, [completed = false] and [createdAt = updatedAt];
    the List that follows is the previous List plus that one record,
    which was not there before and occurs once. *)
Theorem post_then_get (now : Date) (s : string) (db : Collection) :
  wf db -> s <> "" ->
  exists todo db',
    Routes.post None now (Some s) db = (Routes.Created todo, db') /\
    title todo = s /\ completed todo = false /\
    createdAt todo = updatedAt todo /\
    exists before after,
      Routes.get None db = (Routes.Ok before, db) /\
      Routes.get None db' = (Routes.Ok after, db') /\
      Permutation after (todo :: before) /\
      ~ In (_id todo) (ids before) /\
      filter (fun d => N.eqb (_id d) (_id todo)) after = [todo].
Proof.
  intros [Hn Hb] Hs. destruct s as [|c s]; [congruence|].
  do 2 eexists. rewrite post_ok. split; [reflexivity|].
  repeat (split; [reflexivity|]).
  do 2 eexists. rewrite !get_ok. do 2 (split; [reflexivity|]).
  set (todo := {| _id := nextId db; title := String c s;
                  completed := false; createdAt := now;
                  updatedAt := now |}).
  cbn [docs].
  assert (Hfresh : ~ In (_id todo) (ids (docs db))).
  { intros H. unfold ids in H. apply in_map_iff in H.
    destruct H as [d [Hd H]]. rewrite Forall_forall in Hb.
    specialize (Hb _ H). simpl in Hd. lia. }
  assert (Hperm : Permutation (sort_createdAt_desc (docs db ++ [todo]))
                    (todo :: sort_createdAt_desc (docs db))).
  { eapply perm_trans; [apply sort_perm|].
    eapply perm_trans; [apply Permutation_sym, Permutation_cons_append|].
    apply perm_skip, Permutation_sym, sort_perm. }
  assert (Hbefore : ~ In (_id todo) (ids (sort_createdAt_desc (docs db)))).
  { intros H. apply Hfresh. unfold ids in *.
    eapply Permutation_in; [|exact H].
    apply Permutation_map, sort_perm. }
  split; [exact Hperm|]. split; [exact Hbefore|].
  apply Permutation_length_1_inv, Permutation_sym.
  eapply perm_trans; [apply filter_perm, Hperm|].
  simpl. rewrite N.eqb_refl, filter_none by exact Hbefore.
  apply Permutation_refl.
Qed.

Lemma post_then_get_witness :
  exists todo db',
    Routes.post None 4000 (Some "Walk the dog") pantry
    = (Routes.Created todo, db') /\
    title todo = "Walk the dog" /\ completed todo = false /\
    createdAt todo = updatedAt todo /\
    exists before after,
      Routes.get None pantry = (Routes.Ok before, pantry) /\
      Routes.get None db' = (Routes.Ok after, db') /\
      Permutation after (todo :: before) /\
      ~ In (_id todo) (ids before) /\
      filter (fun d => N.eqb (_id d) (_id todo)) after = [todo].
Proof.
  apply (post_then_get 4000 "Walk the dog" pantry).
  - exact pantry_wf.
  - discriminate.
Defined.

(** C5: List answers 200 with all the records of the collection, newest
    [createdAt] first; with no records it answers the empty sequence;
    and a collection that holds three records created at t1 < t2 < t3,
    in whatever order, is listed as [t3; t2; t1]. *)
Theorem get_newest_first (db : Collection) :
  exists todos,
    Routes.get None db = (Routes.Ok todos, db) /\
    Routes.status (fst (Routes.get None db)) = 200 /\
    Permutation todos (docs db) /\
    newestFirst todos /\
    (docs db = [] -> todos = []) /\
    (forall r1 r2 r3,
       createdAt r1 < createdAt r2 -> createdAt r2 < createdAt r3 ->
       Permutation (docs db) [r1; r2; r3] ->
       todos = [r3; r2; r1]).
Proof.
  exists (sort_createdAt_desc (docs db)). rewrite get_ok.
  do 2 (split; [reflexivity|]).
  split; [apply sort_perm|]. split; [apply sort_sorted|]. split.
  - now intros ->.
  - intros r1 r2 r3 H12 H23 P. apply newestFirst_unique.
    + apply sort_sorted.
    + repeat constructor; simpl; lia.
    + eapply perm_trans; [apply sort_perm|].
      eapply perm_trans; [exact P|].
      eapply perm_trans; [apply perm_swap|].
      eapply perm_trans; [apply perm_skip, perm_swap|].
      apply perm_swap.
Qed.

Lemma get_newest_first_witness :
  fst (Routes.get None {| docs := [eggs; bread; milk]; nextId := 3%N |})
  = Routes.Ok [bread; eggs; milk] /\
  fst (Routes.get None Todo.empty) = Routes.Ok [].
Proof.
  split.
  - destruct (get_newest_first
                {| docs := [eggs; bread; milk]; nextId := 3%N |})
      as [todos [Hget [_ [_ [_ [_ H3]]]]]].
    rewrite Hget. simpl. f_equal.
    apply (H3 milk eggs bread).
    + reflexivity.
    + reflexivity.
    + simpl. eapply perm_trans; [apply perm_skip, perm_swap|].
      apply perm_swap.
  - destruct (get_newest_first Todo.empty)
      as [todos [Hget [_ [_ [_ [H0 _]]]]]].
    rewrite Hget. simpl. f_equal. apply H0. reflexivity.
Defined.

(** C6: on an existing record, an Update whose body holds only a title
    changes the title and leaves [completed] as it was, and an Update
    whose body holds only [completed] changes that flag and leaves the
    title as it was; in both cases the identifier and [createdAt] are
    kept, and the record answered is the one now stored. *)
Theorem put_is_partial (now : Date) (id : ObjectId) (db : Collection)
    (d : Todo.t) :
  findById id db = Some d ->
  (forall x, exists d',
     fst (Routes.put None now id
            {| set_title := Some x; set_completed := None |} db)
     = Routes.Ok (Some d') /\
     findById id
       (snd (Routes.put None now id
               {| set_title := Some x; set_completed := None |} db))
     = Some d' /\
     title d' = x /\ completed d' = completed d /\
     _id d' = _id d /\ createdAt d' = createdAt d) /\
  (forall b, exists d',
     fst (Routes.put None now id
            {| set_title := None; set_completed := Some b |} db)
     = Routes.Ok (Some d') /\
     findById id
       (snd (Routes.put None now id
               {| set_title := None; set_completed := Some b |} db))
     = Some d' /\
     completed d' = b /\ title d' = title d /\
     _id d' = _id d /\ createdAt d' = createdAt d).
Proof.
  intros H. split; intros v; eexists; rewrite put_ok, H; simpl;
    (split; [reflexivity|]); unfold findById in *; simpl;
    rewrite updateOne_find, H by reflexivity; simpl;
    repeat split.
Qed.

Lemma put_is_partial_witness :
  (exists d',
     fst (Routes.put None 9000 2%N
            {| set_title := Some "Bake a cake"; set_completed := None |}
            pantry)
     = Routes.Ok (Some d') /\
     findById 2%N
       (snd (Routes.put None 9000 2%N
               {| set_title := Some "Bake a cake"; set_completed := None |}
               pantry))
     = Some d' /\
     title d' = "Bake a cake" /\ completed d' = completed bread /\
     _id d' = _id bread /\ createdAt d' = createdAt bread) /\
  (exists d',
     fst (Routes.put None 9000 2%N
            {| set_title := None; set_completed := Some false |} pantry)
     = Routes.Ok (Some d') /\
     findById 2%N
       (snd (Routes.put None 9000 2%N
               {| set_title := None; set_completed := Some false |} pantry))
     = Some d' /\
     completed d' = false /\ title d' = title bread /\
     _id d' = _id bread /\ createdAt d' = createdAt bread).
Proof.
  destruct (put_is_partial 9000 2%N pantry bread eq_refl) as [Ht Hc].
  split; [apply (Ht "Bake a cake") | apply (Hc false)].
Defined.

End Operations.

(** ** The client *)

Section Client.
Import Todo App.

Lemma replaceById_ids id data l :
  _id data = id -> ids (replaceById id data l) = ids l.
Proof.
  intros E. unfold replaceById, ids. rewrite map_map.
  apply map_ext_in. intros t _.
  destruct (N.eqb_spec (_id t) id); congruence.
Qed.

Lemma filter_ids_nodup (f : Todo.t -> bool) l :
  NoDup (ids l) -> NoDup (ids (filter f l)).
Proof.
  induction l as [|x r IH]; simpl; intros H.
  - constructor.
  - inversion H as [|? ? Hx Hr]; subst.
    destruct (f x); simpl; [|now apply IH].
    constructor; [|now apply IH].
    intros Hin. apply Hx. unfold ids in *.
    apply in_map_iff in Hin. destruct Hin as [d [Hd Hin]].
    apply filter_In in Hin. apply in_map_iff. exists d. tauto.
Qed.

Lemma perform_db {X} e (t : task X) db :
  snd (perform e t db)
  = match issued t with
    | Some r => if online e then Routes.serve (server e) r db else db
    | None => db
    end.
Proof.
  unfold perform. destruct t; simpl; destruct (online e); simpl; try reflexivity.
  - now destruct (Routes.get _ db).
  - now destruct (Routes.post _ _ _ db).
  - now destruct (Routes.put _ _ _ _ db).
  - now destruct (Routes.delete _ _ db).
Qed.

Lemma step_db e ev s db :
  wf db ->
  wf (snd (step e ev s db)) /\ (nextId db <= nextId (snd (step e ev s db)))%N.
Proof.
  intros Hwf.
  assert (H0 : wf db /\ (nextId db <= nextId db)%N) by (split; [exact Hwf | lia]).
  destruct ev; unfold step; try rewrite perform_db;
    try (destruct (issued _); [destruct (online e); [apply serve_wf, Hwf|]|]; exact H0).
  simpl. apply serve_wf, Hwf.
Qed.

Lemma count_by_id id l :
  NoDup (ids l) ->
  (List.length (filter (fun t => N.eqb id (_id t)) l) <= 1)%nat.
Proof.
  induction l as [|x r IH]; simpl; intros H.
  - lia.
  - inversion H as [|? ? Hx Hr]; subst.
    destruct (N.eqb_spec id (_id x)) as [E|E]; [|now apply IH].
    simpl. subst id.
    assert (Hnone : filter (fun t => N.eqb (_id x) (_id t)) r = []).
    { clear -Hx. induction r as [|y r IH]; simpl in *; [reflexivity|].
      destruct (N.eqb_spec (_id x) (_id y)) as [E|E].
      - exfalso. apply Hx. left. now symmetry.
      - apply IH. intros H. apply Hx. now right. }
    rewrite Hnone. simpl. lia.
Qed.

Lemma ids_below s db db' :
  (nextId db <= nextId db')%N ->
  Forall (fun id => (id < nextId db)%N) (ids (todos s)) ->
  Forall (fun id => (id < nextId db')%N) (ids (todos s)).
Proof.
  intros Hle H. eapply Forall_impl; [|exact H]. simpl. intros. lia.
Qed.

Lemma wf_ids_below db :
  wf db -> Forall (fun id => (id < nextId db)%N) (ids (docs db)).
Proof.
  intros [_ H]. unfold ids. apply Forall_map. exact H.
Qed.

Lemma step_coherent e ev s db s' db' :
  coherent s db ->
  step e ev s db = (Rendered s', db') ->
  coherent s' db'.
Proof.
  intros [Hwf [Hn Hb]] Hstep.
  destruct (step_db e ev s db Hwf) as [Hwf' Hle].
  rewrite Hstep in Hwf', Hle. simpl in Hwf', Hle.
  split; [exact Hwf'|].
  pose proof (ids_below s db db' Hle Hb) as Hb'.
  destruct e as [[now fault] on].
  destruct ev; unfold step, handler in Hstep.
  - (* Mount *)
    unfold fetchTodos, perform in Hstep. simpl in Hstep.
    destruct on.
    + destruct fault as [m|]; simpl in Hstep; injection Hstep as <- <-.
      * now split.
      * simpl. split.
        -- eapply Permutation_NoDup; [|apply Hwf].
           apply Permutation_sym, Permutation_map, sort_perm.
        -- eapply Permutation_Forall;
             [apply Permutation_sym, Permutation_map, sort_perm|].
           now apply wf_ids_below.
    + injection Hstep as <- <-. now split.
  - simpl in Hstep. injection Hstep as <- <-. now split.
  - (* Submit *)
    unfold handleAddTodo in Hstep.
    destruct (trim (title s)) as [|c r] eqn:Et; simpl in Hstep.
    + injection Hstep as <- <-. now split.
    + destruct on; [|injection Hstep as <- <-; now split].
      destruct fault as [m|]; simpl in Hstep; injection Hstep as <- <-.
      * now split.
      * simpl. split.
        -- constructor; [|exact Hn]. intros Hin.
           rewrite Forall_forall in Hb. specialize (Hb _ Hin). lia.
        -- constructor; [simpl; lia|]. simpl in Hb'. exact Hb'.
  - (* ChangeCheckbox *)
    unfold handleToggle, perform in Hstep.
    destruct on; [|injection Hstep as <- <-; now split].
    destruct fault as [m|].
    + simpl in Hstep. injection Hstep as <- <-. now split.
    + simpl online in Hstep. cbv iota in Hstep.
      rewrite put_ok in Hstep.
      destruct (findById (_id todo) db) as [d|] eqn:Ef; simpl in Hstep.
      * injection Hstep as <- <-. simpl.
        rewrite replaceById_ids by reflexivity. now split.
      * destruct (todos s) eqn:El; [|discriminate].
        injection Hstep as <- <-. simpl. split; constructor.
  - simpl in Hstep. injection Hstep as <- <-. now split.
  - simpl in Hstep. injection Hstep as <- <-. now split.
  - (* ClickSave *)
    unfold saveEditedTodo in Hstep.
    destruct (trim (editedTitle s)) as [|c r] eqn:Et; simpl in Hstep.
    + injection Hstep as <- <-. now split.
    + destruct on; [|injection Hstep as <- <-; now split].
      destruct fault as [m|].
      * simpl in Hstep. injection Hstep as <- <-. now split.
      * simpl Routes.fault in Hstep. simpl Routes.now in Hstep.
        rewrite put_ok in Hstep.
        destruct (findById id db) as [d|] eqn:Ef; simpl in Hstep.
        -- injection Hstep as <- <-. simpl.
           apply find_some_ids in Ef. destruct Ef as [_ Ef].
           rewrite replaceById_ids by exact Ef. now split.
        -- destruct (existsb _ (todos s)); [discriminate|].
           injection Hstep as <- <-. now split.
  - simpl in Hstep. injection Hstep as <- <-. now split.
  - (* ClickDelete *)
    unfold handleDelete, perform in Hstep.
    destruct on; [|injection Hstep as <- <-; now split].
    destruct fault as [m|].
    + simpl in Hstep. injection Hstep as <- <-. now split.
    + simpl online in Hstep. cbv iota in Hstep.
      rewrite delete_ok in Hstep. simpl in Hstep.
      injection Hstep as <- <-. simpl. split.
      * now apply filter_ids_nodup.
      * rewrite Forall_forall in *. intros i Hi. apply Hb'.
        unfold ids in *. apply in_map_iff in Hi.
        destruct Hi as [d [Hd Hi]]. apply filter_In in Hi.
        apply in_map_iff. exists d. tauto.
  - injection Hstep as <- <-. now split.
Qed.

Lemma reachable_coherent s db : reachable s db -> coherent s db.
Proof.
  induction 1 as [db Hwf|s db e ev s' db' _ IH _ Hstep].
  - split; [exact Hwf|]. split; constructor.
  - eapply step_coherent; eassumption.
Qed.

Lemma replaceById_in id data l todo :
  In todo l -> _id todo = id -> In data (replaceById id data l).
Proof.
  intros Hin E. unfold replaceById. apply in_map_iff. exists todo.
  split; [|exact Hin]. now rewrite E, N.eqb_refl.
Qed.

Lemma put_stored now u id db d :
  findById id db = Some d ->
  findById id
    {| docs := snd (updateOne id (applyUpdates now u) (docs db));
       nextId := nextId db |}
  = Some (applyUpdates now u d).
Proof.
  unfold findById. simpl. intros H.
  now rewrite updateOne_find, H by reflexivity.
Qed.

Lemma toggle_healthy e todo s db d :
  healthy e -> findById (_id todo) db = Some d ->
  step e (ChangeCheckbox todo) s db
  = (Rendered
       (setTodos
          (replaceById (_id todo)
             (applyUpdates (Routes.now (server e))
                {| set_title := None;
                   set_completed := Some (negb (completed todo)) |} d)
             (todos s)) s),
     {| docs :=
          snd (updateOne (_id todo)
                 (applyUpdates (Routes.now (server e))
                    {| set_title := None;
                       set_completed := Some (negb (completed todo)) |})
                 (docs db));
        nextId := nextId db |}).
Proof.
  intros [Hon Hf] Hd. unfold step, handler, handleToggle, perform.
  rewrite Hon, Hf, put_ok, Hd. simpl.
  apply find_some_ids in Hd. destruct Hd as [_ Hd]. now rewrite Hd.
Qed.

(** C7, as stated, fails: a record created and toggled while the clock
    reads the same millisecond is toggled successfully and keeps its
    [updatedAt]. *)
Lemma toggle_within_one_tick_keeps_updatedAt :
  Routes.post None 1000 (Some "Buy milk") Todo.empty
  = (Routes.Created milk, {| docs := [milk]; nextId := 1%N |}) /\
  step (at_ 1000) (ChangeCheckbox milk)
    {| todos := [milk]; title := ""; loading := false;
       editingId := None; editedTitle := "" |}
    {| docs := [milk]; nextId := 1%N |}
  = (Rendered
       {| todos := [milkDone];
          title := ""; loading := false;
          editingId := None; editedTitle := "" |},
     {| docs := [milkDone];
        nextId := 1%N |}) /\
  ~ (updatedAt milk
     < updatedAt milkDone).
Proof.
  split; [reflexivity|]. split; [reflexivity|]. simpl. lia.
Qed.

(** C7, amended: for a record that exists in the collection, toggling
    it twice brings the stored [completed] flag back to its original
    value, the one carried by the record that was toggled, title and
    [createdAt] untouched; each successful toggle sets [updatedAt] to the
    service's clock at that request, so [updatedAt] increases strictly
    exactly when the clock reads later than the record's previous
    [updatedAt]. *)
Theorem toggle_twice (e1 e2 : Env) (s : State) (db : Collection)
    (todo d : Todo.t) :
  healthy e1 -> healthy e2 ->
  findById (_id todo) db = Some d ->
  exists d1 s1 db1 d2 s2 db2,
    step e1 (ChangeCheckbox todo) s db = (Rendered s1, db1) /\
    findById (_id todo) db1 = Some d1 /\
    (In todo (todos s) -> In d1 (todos s1)) /\
    completed d1 = negb (completed todo) /\
    updatedAt d1 = Routes.now (server e1) /\
    step e2 (ChangeCheckbox d1) s1 db1 = (Rendered s2, db2) /\
    findById (_id todo) db2 = Some d2 /\
    (In todo (todos s) -> In d2 (todos s2)) /\
    completed d2 = completed todo /\
    updatedAt d2 = Routes.now (server e2) /\
    Todo.title d2 = Todo.title d /\ createdAt d2 = createdAt d /\
    (updatedAt d < updatedAt d1
     <-> updatedAt d < Routes.now (server e1)) /\
    (updatedAt d1 < updatedAt d2
     <-> updatedAt d1 < Routes.now (server e2)).
Proof.
  intros H1 H2 Hd.
  assert (Hid : _id d = _id todo) by (now apply find_some_ids in Hd).
  destruct d as [i t c ca ua]. simpl in Hid. subst i.
  set (d := {| _id := _id todo; Todo.title := t; completed := c;
               createdAt := ca; updatedAt := ua |}) in *.
  set (u1 := {| set_title := None;
                set_completed := Some (negb (completed todo)) |}).
  set (d1 := applyUpdates (Routes.now (server e1)) u1 d).
  set (db1 := {| docs := snd (updateOne (_id todo)
                                (applyUpdates (Routes.now (server e1)) u1)
                                (docs db));
                 nextId := nextId db |}).
  assert (Hd1 : findById (_id d1) db1 = Some d1)
    by exact (put_stored _ u1 _ _ _ Hd).
  set (u2 := {| set_title := None;
                set_completed := Some (negb (completed d1)) |}).
  set (d2 := applyUpdates (Routes.now (server e2)) u2 d1).
  set (db2 := {| docs := snd (updateOne (_id d1)
                                (applyUpdates (Routes.now (server e2)) u2)
                                (docs db1));
                 nextId := nextId db1 |}).
  exists d1, (setTodos (replaceById (_id todo) d1 (todos s)) s), db1,
    d2,
    (setTodos
       (replaceById (_id d1) d2
          (todos (setTodos (replaceById (_id todo) d1 (todos s)) s)))
       (setTodos (replaceById (_id todo) d1 (todos s)) s)),
    db2.
  split; [now apply toggle_healthy|].
  split; [exact Hd1|].
  split; [intros Hin; simpl; now apply (replaceById_in _ _ _ todo)|].
  split; [reflexivity|]. split; [reflexivity|].
  split; [now apply toggle_healthy|].
  split; [exact (put_stored _ u2 _ _ _ Hd1)|].
  split.
  { intros Hin. simpl. apply (replaceById_in _ _ _ d1); [|reflexivity].
    now apply (replaceById_in _ _ _ todo). }
  split; [simpl; apply negb_involutive|].
  repeat split; simpl; intros; assumption.
Qed.

Lemma toggle_twice_witness :
  exists d1 s1 db1 d2 s2 db2,
    step (at_ 6000) (ChangeCheckbox eggs) listed pantry
    = (Rendered s1, db1) /\
    findById (_id eggs) db1 = Some d1 /\
    (In eggs (todos listed) -> In d1 (todos s1)) /\
    completed d1 = negb (completed eggs) /\
    updatedAt d1 = Routes.now (server (at_ 6000)) /\
    step (at_ 7000) (ChangeCheckbox d1) s1 db1 = (Rendered s2, db2) /\
    findById (_id eggs) db2 = Some d2 /\
    (In eggs (todos listed) -> In d2 (todos s2)) /\
    completed d2 = completed eggs /\
    updatedAt d2 = Routes.now (server (at_ 7000)) /\
    Todo.title d2 = Todo.title eggs /\ createdAt d2 = createdAt eggs /\
    (updatedAt eggs < updatedAt d1
     <-> updatedAt eggs < Routes.now (server (at_ 6000))) /\
    (updatedAt d1 < updatedAt d2
     <-> updatedAt d1 < Routes.now (server (at_ 7000))).
Proof.
  apply (toggle_twice (at_ 6000) (at_ 7000) listed pantry eggs eggs).
  - split; reflexivity.
  - split; reflexivity.
  - reflexivity.
Defined.

(** C8: submitting the Add form with an input that trims to nothing
    issues no request and leaves the state as it is; with any other
    input the handler sends Create with the trimmed text, then on
    success puts the returned record in front of the list and clears
    the input, and on failure leaves the state as it is. *)
Theorem handleAddTodo_spec (s : State) :
  (trim (title s) = "" ->
   handleAddTodo s = Return (Rendered s) /\
   issued (handleAddTodo s) = None /\
   forall e db, step e Submit s db = (Rendered s, db)) /\
  (trim (title s) <> "" ->
   exists k,
     handleAddTodo s = apiCreateTodo (trim (title s)) k /\
     (forall data,
        k (Fulfilled data)
        = Rendered {| todos := data :: todos s; title := "";
                      loading := loading s; editingId := editingId s;
                      editedTitle := editedTitle s |}) /\
     (forall message, k (Rejected message) = Rendered s)).
Proof.
  unfold step, handler, handleAddTodo. split; intros H.
  - rewrite H. simpl. repeat split.
  - destruct (trim (title s)) as [|c r]; [congruence|]. simpl.
    eexists. split; [reflexivity|]. split; reflexivity.
Qed.

Lemma handleAddTodo_spec_witness :
  (handleAddTodo (setTitle "   " listed)
   = Return (Rendered (setTitle "   " listed)) /\
   issued (handleAddTodo (setTitle "   " listed)) = None /\
   forall e db,
     step e Submit (setTitle "   " listed) db
     = (Rendered (setTitle "   " listed), db)) /\
  exists k,
    handleAddTodo (setTitle " Walk the dog " listed)
    = apiCreateTodo "Walk the dog" k /\
    (forall data,
       k (Fulfilled data)
       = Rendered {| todos := data :: todos listed; title := "";
                     loading := false; editingId := None;
                     editedTitle := "" |}) /\
    (forall message,
       k (Rejected message) = Rendered (setTitle " Walk the dog " listed)).
Proof.
  split.
  - apply (proj1 (handleAddTodo_spec (setTitle "   " listed))).
    reflexivity.
  - apply (proj2 (handleAddTodo_spec (setTitle " Walk the dog " listed))).
    discriminate.
Defined.

(** C9: in every reachable state of the client at most one item of the
    list is in edit mode.  Beginning an edit sets the edit target to
    that record's identifier and the draft to its current title, sends
    nothing and changes neither the list nor the collection, so that no
    record with another identifier stays in edit mode and the previous
    draft is dropped unsaved.  Cancelling an edit clears the edit
    target and the draft. *)
Theorem one_item_in_edit_mode :
  (forall s db, reachable s db -> (editedItems s <= 1)%nat) /\
  (forall todo s,
     editingId (startEditing todo s) = Some (_id todo) /\
     editedTitle (startEditing todo s) = Todo.title todo /\
     todos (startEditing todo s) = todos s /\
     (forall other,
        _id other <> _id todo ->
        inEditMode (startEditing todo s) other = false) /\
     issued (handler (ClickEdit todo) s) = None /\
     (forall e db,
        step e (ClickEdit todo) s db
        = (Rendered (startEditing todo s), db))) /\
  (forall s,
     editingId (cancelEditing s) = None /\
     editedTitle (cancelEditing s) = "" /\
     todos (cancelEditing s) = todos s /\
     (forall e db,
        step e ClickCancel s db = (Rendered (cancelEditing s), db))).
Proof.
  split; [|split].
  - intros s db H. apply reachable_coherent in H.
    destruct H as [_ [Hn _]]. unfold editedItems, inEditMode.
    destruct (editingId s) as [id|].
    + now apply count_by_id.
    + rewrite filter_false. simpl. lia.
  - intros todo s. repeat split.
    intros other Hne. unfold inEditMode. simpl.
    apply N.eqb_neq. congruence.
  - intros s. repeat split.
Qed.

Lemma one_item_in_edit_mode_witness :
  (editedItems editingBread <= 1)%nat /\
  inEditMode (startEditing bread editingEggs) eggs = false.
Proof.
  split.
  - apply (proj1 one_item_in_edit_mode editingBread pantry).
    apply (reach_step editingEggs pantry (at_ 5200) (ClickEdit bread)).
    + apply (reach_step listed pantry (at_ 5100) (ClickEdit eggs)).
      * apply (reach_step initialState pantry (at_ 5000) Mount).
        -- apply reach_start. exact pantry_wf.
        -- apply en_Mount. reflexivity.
        -- reflexivity.
      * apply en_ClickEdit.
        -- split; [reflexivity | simpl; auto].
        -- reflexivity.
      * reflexivity.
    + apply en_ClickEdit.
      * split; [reflexivity | simpl; auto].
      * reflexivity.
    + reflexivity.
  - apply (proj1 (proj2 one_item_in_edit_mode) bread editingEggs).
    discriminate.
Defined.

(** C10: whatever the outcome of the initial fetch, the loading flag is
    false afterwards: when the request succeeds the list is the
    service's response, and when it fails the list is still empty and
    the client shows the empty-list message, not the loading one. *)
Theorem fetchTodos_settles :
  (exists k,
     fetchTodos initialState = apiGetTodos k /\
     (forall data,
        k (Fulfilled data)
        = Rendered {| todos := data; title := ""; loading := false;
                      editingId := None; editedTitle := "" |}) /\
     (forall message,
        k (Rejected message)
        = Rendered {| todos := []; title := ""; loading := false;
                      editingId := None; editedTitle := "" |})) /\
  (forall e db,
     exists s',
       step e Mount initialState db = (Rendered s', db) /\
       loading s' = false /\
       render s' <> LoadingMessage /\
       (healthy e ->
        fst (Routes.get None db) = Routes.Ok (todos s')) /\
       (~ healthy e -> todos s' = [] /\ render s' = EmptyMessage)).
Proof.
  split.
  - eexists. split; [reflexivity|]. split; reflexivity.
  - intros [[now fault] on] db. unfold healthy. simpl.
    destruct on; [destruct fault as [m|]|].
    + exists (setLoading false initialState).
      repeat split; try discriminate.
      * intros [_ H]. discriminate.
    + exists (setLoading false
                (setTodos (sort_createdAt_desc (docs db)) initialState)).
      repeat split.
      * unfold render. simpl.
        destruct (sort_createdAt_desc (docs db)); discriminate.
      * exfalso. apply H. split; reflexivity.
      * exfalso. apply H. split; reflexivity.
    + exists (setLoading false initialState).
      repeat split; try discriminate.
      * intros [H _]. discriminate.
Qed.

Lemma fetchTodos_settles_witness :
  (exists s',
     step (at_ 5000) Mount initialState pantry = (Rendered s', pantry) /\
     loading s' = false /\
     fst (Routes.get None pantry) = Routes.Ok (todos s')) /\
  (exists s',
     step offline Mount initialState pantry = (Rendered s', pantry) /\
     loading s' = false /\ todos s' = [] /\ render s' = EmptyMessage).
Proof.
  split.
  - destruct (proj2 fetchTodos_settles (at_ 5000) pantry)
      as [s' [Hs [Hl [_ [Hok _]]]]].
    exists s'. split; [exact Hs|]. split; [exact Hl|].
    apply Hok. split; reflexivity.
  - destruct (proj2 fetchTodos_settles offline pantry)
      as [s' [Hs [Hl [_ [_ Hfail]]]]].
    exists s'. split; [exact Hs|]. split; [exact Hl|].
    apply Hfail. intros [H _]. discriminate.
Defined.

End Client.

(** ** More on the service *)

Section ServiceMore.

Import Todo.

Lemma deleteOne_filter id l :
  NoDup (ids l) -> snd (deleteOne id l) = filter (otherThan id) l.
Proof.
  unfold otherThan.
  induction l as [|x r IH]; simpl; intros H.
  - reflexivity.
  - inversion H as [|? ? Hx Hr]; subst.
    destruct (N.eqb_spec (_id x) id) as [E|E]; simpl.
    + symmetry. apply forallb_filter_id. apply forallb_forall.
      intros d Hd. apply negb_true_iff, N.eqb_neq. intros E'.
      apply Hx. unfold ids. apply in_map_iff. exists d. split; [congruence | exact Hd].
    + destruct (deleteOne id r) as [found r']. simpl in *. now rewrite IH.
Qed.

Lemma filter_sorted (p : Todo.t -> bool) l :
  newestFirst l -> newestFirst (filter p l).
Proof.
  unfold newestFirst. induction 1 as [|x r Hr IH Hx]; simpl.
  - constructor.
  - destruct (p x); [|exact IH]. constructor; [exact IH|].
    rewrite Forall_forall in *. intros y Hy. apply filter_In in Hy.
    apply Hx. tauto.
Qed.

Lemma updateOne_map id f l :
  NoDup (ids l) ->
  snd (updateOne id f l)
  = map (fun d => if N.eqb (_id d) id then f d else d) l.
Proof.
  induction l as [|x r IH]; simpl; intros H.
  - reflexivity.
  - inversion H as [|? ? Hx Hr]; subst.
    destruct (N.eqb_spec (_id x) id) as [E|E]; simpl.
    + f_equal. rewrite <- (map_id r) at 1. apply map_ext_in.
      intros d Hd. destruct (N.eqb_spec (_id d) id) as [E'|E']; [|reflexivity].
      exfalso. apply Hx. unfold ids. apply in_map_iff. exists d.
      split; [congruence | exact Hd].
    + destruct (updateOne id f r) as [found r']. simpl in *. now rewrite IH.
Qed.

Lemma updateOne_find_other id id' f l :
  (forall d, _id (f d) = _id d) -> id' <> id ->
  find (fun d => N.eqb (_id d) id') (snd (updateOne id f l))
  = find (fun d => N.eqb (_id d) id') l.
Proof.
  intros Hf Hne. induction l as [|x r IH]; simpl.
  - reflexivity.
  - destruct (N.eqb_spec (_id x) id) as [E|E]; simpl.
    + rewrite Hf. destruct (N.eqb_spec (_id x) id'); [congruence | reflexivity].
    + destruct (updateOne id f r) as [found r']. simpl in *. now rewrite IH.
Qed.

Lemma serve_titles e r db :
  titlesPresent db ->
  (forall id u, r = Routes.PUT id u -> set_title u <> Some "") ->
  titlesPresent (Routes.serve e r db).
Proof.
  unfold titlesPresent. intros H Hr.
  destruct e as [now [m|]].
  - destruct r as [|t|id u|id]; simpl; try exact H.
    unfold Routes.post. now destruct (Routes.falsy t).
  - destruct r as [|t|id u|id]; cbn [Routes.serve Routes.fault Routes.now].
    + now rewrite get_keeps.
    + destruct t as [[|c s]|].
      * now rewrite post_falsy by reflexivity.
      * rewrite post_ok. simpl. apply Forall_app. split; [exact H|].
        repeat constructor. simpl. discriminate.
      * now rewrite post_falsy by reflexivity.
    + rewrite put_ok. simpl. rewrite Forall_forall in *. intros d Hd.
      apply updateOne_in in Hd. destruct Hd as [Hd|[d0 [Hd ->]]].
      * now apply H.
      * simpl. specialize (Hr id u eq_refl).
        destruct (set_title u) as [x|]; [congruence | now apply H].
    + rewrite delete_ok. simpl. rewrite Forall_forall in *. intros d Hd.
      apply deleteOne_incl in Hd. now apply H.
Qed.

Lemma pantry_titles : titlesPresent pantry.
Proof. repeat constructor; discriminate. Qed.

Lemma pantry_timely : timely pantry.
Proof. repeat constructor; discriminate. Qed.

Lemma pantry_after : after 4000 pantry.
Proof. repeat constructor. Qed.

Lemma pantry_notBefore : notBefore 4000 pantry.
Proof. repeat constructor; discriminate. Qed.

(** X1: whatever requests the service receives, in whatever order and
    with whatever driver failures, the collection keeps pairwise distinct
    identifiers, all of them below the counter, and the counter never
    decreases. *)
Theorem requests_keep_identifiers_unique
    (rs : list (Routes.Env * Routes.request)) (db : Collection) :
  wf db ->
  wf (Routes.serveAll rs db) /\
  (nextId db <= nextId (Routes.serveAll rs db))%N.
Proof.
  revert db. induction rs as [|[e r] rest IH]; simpl; intros db Hwf.
  - split; [exact Hwf | lia].
  - destruct (serve_wf e r db Hwf) as [Hwf' Hle].
    destruct (IH _ Hwf') as [Hwf'' Hle']. split; [exact Hwf'' | lia].
Qed.

Lemma requests_keep_identifiers_unique_witness :
  wf (Routes.serveAll twoRequests pantry) /\
  (nextId pantry <= nextId (Routes.serveAll twoRequests pantry))%N.
Proof.
  apply (requests_keep_identifiers_unique twoRequests pantry).
  exact pantry_wf.
Defined.

(** X2: when the driver fails, List, Update and Delete answer 500 with the
    driver's message as the error; Create does the same, except that an
    absent or empty title is still answered 400 first. *)
Theorem driver_failure_is_answered_500
    (m : string) (now : Date) (id : ObjectId) (u : Updates)
    (title : option string) (db : Collection) :
  fst (Routes.get (Some m) db) = Routes.InternalServerError m /\
  fst (Routes.put (Some m) now id u db) = Routes.InternalServerError m /\
  fst (Routes.delete (Some m) id db) = Routes.InternalServerError m /\
  fst (Routes.post (Some m) now title db)
  = (if Routes.falsy title then Routes.BadRequest "Title required"
     else Routes.InternalServerError m).
Proof.
  repeat split. unfold Routes.post. now destruct (Routes.falsy title).
Qed.

(** X3: an Update whose id matches no record is answered 200 with [null],
    whatever its body, and changes nothing in the collection. *)
Theorem put_unknown_id_changes_nothing
    (now : Date) (id : ObjectId) (u : Updates) (db : Collection) :
  findById id db = None ->
  Routes.put None now id u db = (Routes.Ok None, db) /\
  Routes.status (fst (Routes.put None now id u db)) = 200.
Proof.
  intros H. rewrite put_ok, H. simpl. unfold findById in H.
  rewrite (updateOne_missing _ _ _ H). now destruct db.
Qed.

Lemma put_unknown_id_changes_nothing_witness :
  Routes.put None 4000 9%N
    {| set_title := Some "Feed the cat"; set_completed := None |} pantry
  = (Routes.Ok None, pantry) /\
  Routes.status
    (fst (Routes.put None 4000 9%N
            {| set_title := Some "Feed the cat"; set_completed := None |}
            pantry))
  = 200.
Proof.
  apply (put_unknown_id_changes_nothing 4000 9%N _ pantry). reflexivity.
Defined.

(** X4: on a well-formed collection, Delete removes the record with that
    id and nothing else: the other records stay, List afterwards shows
    exactly the remaining records, newest first, none of them with that
    id, the counter is kept, every other id resolves as before, and
    deleting an id that is not there leaves the collection as it was. *)
Theorem delete_removes_that_record_only (id : ObjectId) (db : Collection) :
  wf db ->
  docs (snd (Routes.delete None id db)) = filter (otherThan id) (docs db) /\
  (exists listed,
     fst (Routes.get None (snd (Routes.delete None id db)))
     = Routes.Ok listed /\
     Permutation listed (filter (otherThan id) (docs db)) /\
     newestFirst listed /\
     ~ In id (ids listed)) /\
  nextId (snd (Routes.delete None id db)) = nextId db /\
  (forall id', id' <> id ->
     findById id' (snd (Routes.delete None id db)) = findById id' db) /\
  (findById id db = None -> snd (Routes.delete None id db) = db).
Proof.
  intros [Hn Hb]. rewrite delete_ok. simpl.
  rewrite deleteOne_filter by exact Hn.
  split; [reflexivity|]. split.
  { eexists. split; [reflexivity|].
    split; [apply sort_perm|]. split; [apply sort_sorted|].
    intros H. unfold ids in H. apply in_map_iff in H.
    destruct H as [d [Hd H]].
    apply (Permutation_in _ (sort_perm _)) in H.
    apply filter_In in H. destruct H as [_ H].
    unfold otherThan in H. rewrite Hd, N.eqb_refl in H. discriminate. }
  split; [reflexivity|]. split.
  - intros id' Hne. unfold findById. simpl. clear Hn Hb.
    induction (docs db) as [|x r IH]; simpl; [reflexivity|].
    unfold otherThan at 1.
    destruct (N.eqb_spec (_id x) id) as [E|E]; simpl.
    + destruct (N.eqb_spec (_id x) id'); [congruence | exact IH].
    + destruct (N.eqb (_id x) id'); [reflexivity | exact IH].
  - intros Hnone. destruct db as [l n]. simpl in *. f_equal.
    apply forallb_filter_id, forallb_forall. intros d Hd.
    apply negb_true_iff, N.eqb_neq. intros E.
    unfold findById in Hnone. simpl in Hnone.
    apply find_none_ids in Hnone. apply Hnone.
    unfold ids. apply in_map_iff. now exists d.
Qed.

Lemma delete_removes_that_record_only_witness :
  docs (snd (Routes.delete None 1%N pantry)) = [milk; bread] /\
  (exists listed,
     fst (Routes.get None (snd (Routes.delete None 1%N pantry)))
     = Routes.Ok listed /\
     Permutation listed (filter (otherThan 1%N) (docs pantry)) /\
     newestFirst listed /\
     ~ In 1%N (ids listed)) /\
  findById 2%N (snd (Routes.delete None 1%N pantry)) = Some bread /\
  snd (Routes.delete None 9%N pantry) = pantry.
Proof.
  destruct (delete_removes_that_record_only 1%N pantry pantry_wf)
    as [H1 [H2 [_ [H4 _]]]].
  destruct (delete_removes_that_record_only 9%N pantry pantry_wf)
    as [_ [_ [_ [_ H5]]]].
  split; [exact H1|]. split; [exact H2|]. split.
  - rewrite (H4 2%N); [reflexivity | discriminate].
  - apply H5. reflexivity.
Defined.

(** X5: an Update keeps the identifiers of the collection, in the same
    order, and the counter; every record with another id is left as it
    was; and the record it changes keeps its id and [createdAt] and gets
    the time of the request as [updatedAt]. *)
Theorem put_touches_one_record
    (now : Date) (id : ObjectId) (u : Updates) (db : Collection) :
  ids (docs (snd (Routes.put None now id u db))) = ids (docs db) /\
  nextId (snd (Routes.put None now id u db)) = nextId db /\
  (forall id', id' <> id ->
     findById id' (snd (Routes.put None now id u db)) = findById id' db) /\
  (forall d d',
     findById id db = Some d ->
     findById id (snd (Routes.put None now id u db)) = Some d' ->
     createdAt d' = createdAt d /\ _id d' = _id d /\ updatedAt d' = now).
Proof.
  rewrite put_ok. simpl. split; [now rewrite updateOne_ids|].
  split; [reflexivity|]. split.
  - intros id' Hne. unfold findById. simpl.
    now apply updateOne_find_other.
  - intros d d' Hd Hd'. unfold findById in *. simpl in Hd'.
    rewrite updateOne_find, Hd in Hd' by reflexivity.
    simpl in Hd'. injection Hd' as <-. repeat split.
Qed.

Lemma put_touches_one_record_witness :
  findById 0%N
    (snd (Routes.put None 4000 2%N
            {| set_title := None; set_completed := Some false |} pantry))
  = Some milk /\
  (createdAt (applyUpdates 4000
                {| set_title := None; set_completed := Some false |} bread)
   = createdAt bread /\
   _id (applyUpdates 4000
          {| set_title := None; set_completed := Some false |} bread)
   = _id bread /\
   updatedAt (applyUpdates 4000
                {| set_title := None; set_completed := Some false |} bread)
   = 4000).
Proof.
  destruct (put_touches_one_record 4000 2%N
              {| set_title := None; set_completed := Some false |} pantry)
    as [_ [_ [H3 H4]]].
  split.
  - rewrite (H3 0%N); [reflexivity | discriminate].
  - apply (H4 bread); reflexivity.
Defined.

(** X6: for a Create request whose title is absent or a string, a working
    driver leaves two outcomes only, 400 with an untouched collection or
    201 with one record appended whose title is not empty and whose id
    is the next one; on such a request the schema's [required] validator
    never fires. *)
Theorem post_never_fails_validation
    (now : Date) (title : option string) (db : Collection) :
  Routes.post None now title db = (Routes.BadRequest "Title required", db) \/
  exists todo,
    Routes.post None now title db
    = (Routes.Created todo,
       {| docs := docs db ++ [todo]; nextId := N.succ (nextId db) |}) /\
    Todo.title todo <> "" /\ _id todo = nextId db.
Proof.
  destruct title as [[|c s]|].
  - now left.
  - right. eexists. rewrite post_ok. repeat split. discriminate.
  - now left.
Qed.

Lemma newest_comes_first todo old l :
  Forall (fun x => createdAt x < createdAt todo) old ->
  Permutation l (old ++ [todo]) -> newestFirst l ->
  exists rest, l = todo :: rest /\ Permutation rest old /\ newestFirst rest.
Proof.
  intros Hold P Hs.
  assert (P' : Permutation l (todo :: old)).
  { eapply perm_trans; [exact P|].
    apply Permutation_sym, Permutation_cons_append. }
  destruct l as [|x rest].
  { apply Permutation_nil in P'. discriminate. }
  unfold newestFirst in Hs. inversion Hs as [|? ? Hr Hx]; subst.
  assert (Ex : x = todo).
  { assert (Ix : In x (todo :: old))
      by (eapply Permutation_in; [exact P' | now left]).
    destruct Ix as [<-|Ix]; [reflexivity|].
    assert (It : In todo (x :: rest))
      by (eapply Permutation_in;
          [apply Permutation_sym; exact P' | now left]).
    destruct It as [->|It]; [reflexivity|].
    rewrite Forall_forall in Hold, Hx.
    specialize (Hold _ Ix). specialize (Hx _ It). simpl in Hx. lia. }
  subst x. exists rest. split; [reflexivity|]. split; [|exact Hr].
  eapply Permutation_cons_inv; exact P'.
Qed.

(** X7: when the clock reads later than the creation of every stored
    record, the record that Create returns is the first of the next List,
    in whatever order the database puts records of the same age, and
    the rest of that List is the former records, newest first. *)
Theorem created_record_is_listed_first
    (now : Date) (c : ascii) (s : string) (db : Collection) :
  after now db ->
  exists todo db',
    Routes.post None now (Some (String c s)) db = (Routes.Created todo, db') /\
    (forall l,
       Permutation l (docs db') -> newestFirst l ->
       exists rest,
         l = todo :: rest /\ Permutation rest (docs db) /\
         newestFirst rest) /\
    exists rest,
      fst (Routes.get None db') = Routes.Ok (todo :: rest) /\
      Permutation rest (docs db) /\ newestFirst rest.
Proof.
  intros H. do 2 eexists. rewrite post_ok.
  split; [reflexivity|].
  set (todo := {| _id := nextId db; title := String c s;
                  completed := false; createdAt := now;
                  updatedAt := now |}).
  assert (G : forall l,
            Permutation l (docs db ++ [todo]) -> newestFirst l ->
            exists rest,
              l = todo :: rest /\ Permutation rest (docs db) /\
              newestFirst rest).
  { intros l P Hs. apply newest_comes_first; assumption. }
  split; [exact G|].
  destruct (G (sort_createdAt_desc (docs db ++ [todo])))
    as [rest [E [P Hs]]]; [apply sort_perm | apply sort_sorted |].
  exists rest. rewrite get_ok. simpl docs. rewrite E.
  split; [reflexivity|]. now split.
Qed.

Lemma created_record_is_listed_first_witness :
  exists todo db',
    Routes.post None 4000 (Some "Walk the dog") pantry
    = (Routes.Created todo, db') /\
    (forall l,
       Permutation l (docs db') -> newestFirst l ->
       exists rest,
         l = todo :: rest /\ Permutation rest (docs pantry) /\
         newestFirst rest) /\
    exists rest,
      fst (Routes.get None db') = Routes.Ok (todo :: rest) /\
      Permutation rest (docs pantry) /\ newestFirst rest.
Proof.
  apply (created_record_is_listed_first 4000 "W"%char "alk the dog" pantry).
  exact pantry_after.
Defined.

(** X8: a request leaves every stored title non-empty unless it is an
    Update whose body carries the empty title. *)
Theorem titles_stay_present (e : Routes.Env) (r : Routes.request)
    (db : Collection) :
  titlesPresent db ->
  (forall id u, r = Routes.PUT id u -> set_title u <> Some "") ->
  titlesPresent (Routes.serve e r db).
Proof. apply serve_titles. Qed.

Lemma titles_stay_present_witness :
  titlesPresent
    (Routes.serve {| Routes.now := 4000; Routes.fault := None |}
       (Routes.PUT 1%N
          {| set_title := Some "Buy a dozen eggs"; set_completed := None |})
       pantry).
Proof.
  apply titles_stay_present.
  - exact pantry_titles.
  - intros id u H. injection H as _ <-. discriminate.
Defined.

(** X9: when the clock does not read earlier than the creation of a stored
    record, a request keeps [createdAt <= updatedAt] on every record. *)
Theorem timestamps_stay_ordered (e : Routes.Env) (r : Routes.request)
    (db : Collection) :
  timely db ->
  Forall (fun d => createdAt d <= Routes.now e) (docs db) ->
  timely (Routes.serve e r db).
Proof.
  unfold timely. intros H Hnow.
  destruct e as [now [m|]].
  - destruct r as [|t|id u|id]; simpl; try exact H.
    unfold Routes.post. now destruct (Routes.falsy t).
  - destruct r as [|t|id u|id]; cbn [Routes.serve Routes.fault Routes.now].
    + now rewrite get_keeps.
    + destruct t as [[|c s]|].
      * now rewrite post_falsy by reflexivity.
      * rewrite post_ok. simpl. apply Forall_app. split; [exact H|].
        repeat constructor. simpl. lia.
      * now rewrite post_falsy by reflexivity.
    + rewrite put_ok. simpl. rewrite Forall_forall in *. intros d Hd.
      apply updateOne_in in Hd. destruct Hd as [Hd|[d0 [Hd ->]]].
      * now apply H.
      * simpl. now apply Hnow.
    + rewrite delete_ok. simpl. rewrite Forall_forall in *. intros d Hd.
      apply deleteOne_incl in Hd. now apply H.
Qed.

Lemma timestamps_stay_ordered_witness :
  timely
    (Routes.serve {| Routes.now := 4000; Routes.fault := None |}
       (Routes.PUT 1%N {| set_title := None; set_completed := Some true |})
       pantry).
Proof.
  apply timestamps_stay_ordered.
  - exact pantry_timely.
  - exact pantry_notBefore.
Defined.

(** X10: Update does not validate: on an existing record a body with the
    empty title is answered 200 and the stored title becomes empty, so
    that the collection no longer has all its titles non-empty. *)
Theorem put_accepts_an_empty_title
    (now : Date) (id : ObjectId) (db : Collection) (d : Todo.t) :
  findById id db = Some d ->
  exists d',
    Routes.put None now id {| set_title := Some ""; set_completed := None |} db
    = (Routes.Ok (Some d'),
       snd (Routes.put None now id
              {| set_title := Some ""; set_completed := None |} db)) /\
    Todo.title d' = "" /\
    findById id
      (snd (Routes.put None now id
              {| set_title := Some ""; set_completed := None |} db))
    = Some d' /\
    ~ titlesPresent
        (snd (Routes.put None now id
                {| set_title := Some ""; set_completed := None |} db)).
Proof.
  intros H. eexists. rewrite put_ok, H. simpl.
  split; [reflexivity|]. split; [reflexivity|].
  assert (G : findById id
                {| docs := snd (updateOne id
                                  (applyUpdates now
                                     {| set_title := Some "";
                                        set_completed := None |}) (docs db));
                   nextId := nextId db |}
              = Some (applyUpdates now
                        {| set_title := Some ""; set_completed := None |} d))
    by exact (put_stored now _ id db d H).
  split; [exact G|].
  intros Ht. unfold titlesPresent in Ht. rewrite Forall_forall in Ht.
  apply find_some_ids in G. destruct G as [G _].
  apply (Ht _ G). reflexivity.
Qed.

Lemma put_accepts_an_empty_title_witness :
  exists d',
    Routes.put None 4000 1%N
      {| set_title := Some ""; set_completed := None |} pantry
    = (Routes.Ok (Some d'),
       snd (Routes.put None 4000 1%N
              {| set_title := Some ""; set_completed := None |} pantry)) /\
    Todo.title d' = "" /\
    findById 1%N
      (snd (Routes.put None 4000 1%N
              {| set_title := Some ""; set_completed := None |} pantry))
    = Some d' /\
    ~ titlesPresent
        (snd (Routes.put None 4000 1%N
                {| set_title := Some ""; set_completed := None |} pantry)).
Proof.
  apply (put_accepts_an_empty_title 4000 1%N pantry eggs). reflexivity.
Defined.

End ServiceMore.

(** ** More on the client *)

Section ClientMore.

Import Todo App.

Lemma trimStart_empty s : trimStart s = "" <-> allWhiteSpace s = true.
Proof.
  induction s as [|c r IH]; simpl.
  - tauto.
  - destruct (isWhiteSpace c); simpl; [exact IH|].
    split; discriminate.
Qed.

Lemma trimEnd_empty s : trimEnd s = "" <-> allWhiteSpace s = true.
Proof.
  induction s as [|c r IH]; simpl.
  - tauto.
  - destruct (trimEnd r) as [|c' r'] eqn:E.
    + destruct (isWhiteSpace c); simpl.
      * tauto.
      * split; discriminate.
    + split; [discriminate|]. intros H. apply andb_true_iff in H.
      destruct H as [_ H]. apply IH in H. discriminate.
Qed.

Lemma allWhiteSpace_trimStart s :
  allWhiteSpace (trimStart s) = allWhiteSpace s.
Proof.
  induction s as [|c r IH]; simpl.
  - reflexivity.
  - destruct (isWhiteSpace c) eqn:E; simpl; [exact IH|].
    now rewrite E.
Qed.

Lemma trim_empty s : trim s = "" <-> allWhiteSpace s = true.
Proof.
  unfold trim. rewrite trimEnd_empty, allWhiteSpace_trimStart. tauto.
Qed.

Lemma isEmpty_trim s : isEmpty (trim s) = allWhiteSpace s.
Proof.
  destruct (allWhiteSpace s) eqn:E.
  - apply trim_empty in E. now rewrite E.
  - destruct (trim s) eqn:T; [|reflexivity].
    apply trim_empty in T. congruence.
Qed.

Lemma headWhite_trimStart s : headWhite (trimStart s) = false.
Proof.
  induction s as [|c r IH]; simpl.
  - reflexivity.
  - destruct (isWhiteSpace c) eqn:E; [exact IH | exact E].
Qed.

Lemma trimStart_id s : headWhite s = false -> trimStart s = s.
Proof. destruct s as [|c r]; simpl; [reflexivity | now intros ->]. Qed.

Lemma headWhite_trimEnd s : headWhite s = false -> headWhite (trimEnd s) = false.
Proof.
  destruct s as [|c r]; simpl; [reflexivity|]. intros H.
  destruct (trimEnd r); [rewrite H|]; simpl; exact H.
Qed.

Lemma trimEnd_idem s : trimEnd (trimEnd s) = trimEnd s.
Proof.
  induction s as [|c r IH]; simpl.
  - reflexivity.
  - destruct (trimEnd r) as [|c' r'] eqn:E.
    + destruct (isWhiteSpace c) eqn:W; simpl; [reflexivity | now rewrite W].
    + simpl in *. now rewrite IH.
Qed.

Lemma trim_idem s : trim (trim s) = trim s.
Proof.
  unfold trim.
  rewrite (trimStart_id (trimEnd (trimStart s))).
  - apply trimEnd_idem.
  - apply headWhite_trimEnd, headWhite_trimStart.
Qed.

Lemma same_id_same_doc l a b :
  NoDup (ids l) -> In a l -> In b l -> _id a = _id b -> a = b.
Proof.
  induction l as [|x r IH]; simpl; intros Hn Ha Hb E.
  - contradiction.
  - inversion Hn as [|? ? Hx Hr]; subst.
    destruct Ha as [->|Ha], Hb as [->|Hb].
    + reflexivity.
    + exfalso. apply Hx. unfold ids. apply in_map_iff. exists b. split; [congruence | exact Hb].
    + exfalso. apply Hx. unfold ids. apply in_map_iff. exists a. split; [congruence | exact Ha].
    + now apply IH.
Qed.

Lemma map_sorted (g : Todo.t -> Todo.t) l :
  (forall x, createdAt (g x) = createdAt x) ->
  newestFirst l -> newestFirst (map g l).
Proof.
  intros Hg. unfold newestFirst. induction 1 as [|x r Hr IH Hx]; simpl.
  - constructor.
  - constructor; [exact IH|]. rewrite Forall_forall in *.
    intros y Hy. apply in_map_iff in Hy. destruct Hy as [y0 [<- Hy]].
    rewrite !Hg. now apply Hx.
Qed.

Lemma replaceById_as_map id f d l docs :
  NoDup (ids docs) -> In d docs -> _id d = id ->
  (forall t, In t l -> In t docs) ->
  replaceById id (f d) l
  = map (fun t => if N.eqb (_id t) id then f t else t) l.
Proof.
  intros Hn Hd Hid Hl. unfold replaceById. apply map_ext_in.
  intros t Ht. destruct (N.eqb_spec (_id t) id) as [E|E]; [|reflexivity].
  f_equal. symmetry. apply (same_id_same_doc docs); auto. congruence.
Qed.

Lemma find_in_nodup id l d :
  NoDup (ids l) -> In d l -> _id d = id ->
  find (fun x => N.eqb (_id x) id) l = Some d.
Proof.
  intros Hn Hd Hid.
  destruct (find (fun x => N.eqb (_id x) id) l) as [d0|] eqn:E.
  - apply find_some_ids in E. destruct E as [H0 E0].
    f_equal. apply (same_id_same_doc l); auto. congruence.
  - apply find_none_ids in E. exfalso. apply E. unfold ids.
    apply in_map_iff. now exists d.
Qed.

Lemma save_healthy e id s db d c r :
  healthy e -> findById id db = Some d ->
  trim (editedTitle s) = String c r ->
  step e (ClickSave id) s db
  = (Rendered
       (cancelEditing
          (setTodos
             (replaceById id
                (applyUpdates (Routes.now (server e))
                   {| set_title := Some (String c r); set_completed := None |}
                   d)
                (todos s)) s)),
     {| docs :=
          snd (updateOne id
                 (applyUpdates (Routes.now (server e))
                    {| set_title := Some (String c r);
                       set_completed := None |})
                 (docs db));
        nextId := nextId db |}).
Proof.
  intros [Hon Hf] Hd Ht. unfold step, handler, saveEditedTodo, perform.
  rewrite Ht. simpl isEmpty. cbv iota.
  now rewrite Hon, Hf, put_ok, Hd.
Qed.

Lemma sent_title_present ev s r :
  issued (handler ev s) = Some r ->
  forall id u, r = Routes.PUT id u -> set_title u <> Some "".
Proof.
  intros Hi id u ->.
  destruct ev; simpl in Hi;
    unfold fetchTodos, handleAddTodo, handleToggle, saveEditedTodo,
      handleDelete in Hi;
    try (destruct (isEmpty (trim (title s))) eqn:E);
    try (destruct (isEmpty (trim (editedTitle s))) eqn:E');
    simpl in Hi; try discriminate;
    injection Hi as <- <-; simpl; try discriminate;
    destruct (trim (editedTitle s)); discriminate.
Qed.


Lemma listed_inStep : inStep listed pantry.
Proof.
  split.
  - simpl. eapply perm_trans; [apply perm_swap|].
    eapply perm_trans; [apply perm_skip, perm_swap|].
    apply perm_swap.
  - repeat constructor; discriminate.
Qed.

Lemma listed_reachable : reachable listed pantry.
Proof.
  apply (reach_step initialState pantry (at_ 3600) Mount).
  - apply reach_start. exact pantry_wf.
  - apply en_Mount. reflexivity.
  - reflexivity.
Qed.

Lemma eggs_listed : In eggs [bread; eggs; milk].
Proof. right. left. reflexivity. Qed.

Lemma at_healthy now : healthy (at_ now).
Proof. split; reflexivity. Qed.

(** X11: whatever the state, a title that a handler of the client puts in
    a request is trimmed and not empty, so that the guard of Create never
    answers 400 to this client. *)
Theorem client_sends_trimmed_titles
    (ev : event) (s : State) (r : Routes.request) (t : string) :
  issued (handler ev s) = Some r -> title_sent r = Some t ->
  trim t = t /\ t <> "" /\ Routes.falsy (Some t) = false.
Proof.
  assert (G : forall x, isEmpty (trim x) = false ->
              trim (trim x) = trim x /\ trim x <> "" /\
              Routes.falsy (Some (trim x)) = false).
  { intros x Hx. split; [apply trim_idem|].
    destruct (trim x); [discriminate|]. split; [discriminate | reflexivity]. }
  destruct ev; simpl;
    unfold fetchTodos, handleAddTodo, handleToggle, saveEditedTodo,
      handleDelete;
    try (destruct (isEmpty (trim (title s))) eqn:E);
    try (destruct (isEmpty (trim (editedTitle s))) eqn:E');
    simpl; intros H1 H2; try discriminate;
    injection H1 as <-; simpl in H2; try discriminate;
    injection H2 as <-; now apply G.
Qed.

Lemma client_sends_trimmed_titles_witness :
  trim "Walk the dog" = "Walk the dog" /\
  "Walk the dog" <> "" /\
  Routes.falsy (Some "Walk the dog") = false.
Proof.
  apply (client_sends_trimmed_titles Submit typing walkTheDog "Walk the dog");
    reflexivity.
Defined.

(** X12: saving a draft made of white space only sends nothing and leaves
    the state as it is, edit target and draft included; any other draft
    is sent trimmed, as the only field of the Update. *)
Theorem blank_draft_keeps_editing (id : ObjectId) (s : State) :
  (allWhiteSpace (editedTitle s) = true ->
   issued (saveEditedTodo id s) = None /\
   forall e db, step e (ClickSave id) s db = (Rendered s, db)) /\
  (allWhiteSpace (editedTitle s) = false ->
   issued (saveEditedTodo id s)
   = Some (Routes.PUT id {| set_title := Some (trim (editedTitle s));
                            set_completed := None |})).
Proof.
  unfold step, handler, saveEditedTodo. rewrite isEmpty_trim.
  split; intros ->; simpl; [split|]; reflexivity.
Qed.

Lemma blank_draft_keeps_editing_witness :
  (issued (saveEditedTodo 1%N blankDraft) = None /\
   forall e db,
     step e (ClickSave 1%N) blankDraft db = (Rendered blankDraft, db)) /\
  issued (saveEditedTodo 1%N (setEditedTitle " Buy a dozen eggs " editingEggs))
  = Some (Routes.PUT 1%N {| set_title := Some "Buy a dozen eggs";
                            set_completed := None |}).
Proof.
  split.
  - apply (proj1 (blank_draft_keeps_editing 1%N blankDraft)). reflexivity.
  - apply (proj2 (blank_draft_keeps_editing 1%N
                    (setEditedTitle " Buy a dozen eggs " editingEggs))).
    reflexivity.
Defined.

(** X13: when the client shows exactly the stored records, newest first,
    a successful toggle of a record on screen stores that record with
    the flag inverted and [updatedAt] set to the time of the request,
    leaves the client showing exactly the stored records, newest first,
    and does not touch the edit target or the draft. *)
Theorem toggle_keeps_client_in_step
    (e : Env) (todo : Todo.t) (s : State) (db : Collection) :
  wf db -> inStep s db -> In todo (todos s) -> healthy e ->
  exists s' db',
    step e (ChangeCheckbox todo) s db = (Rendered s', db') /\
    inStep s' db' /\
    findById (_id todo) db'
    = Some {| _id := _id todo; Todo.title := Todo.title todo;
              completed := negb (completed todo);
              createdAt := createdAt todo;
              updatedAt := Routes.now (server e) |} /\
    editingId s' = editingId s /\ editedTitle s' = editedTitle s.
Proof.
  intros [Hn Hb] [Hp Hs] Hin He.
  assert (Hd : In todo (docs db)) by (eapply Permutation_in; eassumption).
  assert (Hf : findById (_id todo) db = Some todo)
    by (apply find_in_nodup; auto).
  do 2 eexists. rewrite (toggle_healthy e todo s db todo He Hf).
  split; [reflexivity|].
  set (u := {| set_title := None;
               set_completed := Some (negb (completed todo)) |}).
  set (f := applyUpdates (Routes.now (server e)) u).
  split; [|split; [exact (put_stored _ u _ _ _ Hf) | split; reflexivity]].
  unfold inStep. simpl.
  rewrite (replaceById_as_map (_id todo) f todo (todos s) (docs db)); auto.
  - rewrite updateOne_map by exact Hn. split.
    + apply Permutation_map, Hp.
    + apply map_sorted; [|exact Hs].
      intros x. now destruct (N.eqb (_id x) (_id todo)).
  - intros t Ht. eapply Permutation_in; eassumption.
Qed.

Lemma toggle_keeps_client_in_step_witness :
  exists s' db',
    step (at_ 4000) (ChangeCheckbox eggs) listed pantry = (Rendered s', db') /\
    inStep s' db' /\
    findById (_id eggs) db'
    = Some {| _id := _id eggs; Todo.title := Todo.title eggs;
              completed := negb (completed eggs);
              createdAt := createdAt eggs;
              updatedAt := Routes.now (server (at_ 4000)) |} /\
    editingId s' = editingId listed /\ editedTitle s' = editedTitle listed.
Proof.
  apply (toggle_keeps_client_in_step (at_ 4000) eggs listed pantry).
  - exact pantry_wf.
  - exact listed_inStep.
  - exact eggs_listed.
  - exact (at_healthy 4000).
Defined.

(** X14: when the client shows exactly the stored records, newest first,
    a successful save of a draft that is not blank stores the record
    with the trimmed draft as its title, the other fields kept and
    [updatedAt] set to the time of the request, leaves the client
    showing exactly the stored records, newest first, and ends the
    edit. *)
Theorem save_keeps_client_in_step
    (e : Env) (todo : Todo.t) (s : State) (db : Collection) :
  wf db -> inStep s db -> In todo (todos s) -> healthy e ->
  allWhiteSpace (editedTitle s) = false ->
  exists s' db',
    step e (ClickSave (_id todo)) s db = (Rendered s', db') /\
    inStep s' db' /\
    findById (_id todo) db'
    = Some {| _id := _id todo; Todo.title := trim (editedTitle s);
              completed := completed todo;
              createdAt := createdAt todo;
              updatedAt := Routes.now (server e) |} /\
    editingId s' = None /\ editedTitle s' = "".
Proof.
  intros [Hn Hb] [Hp Hs] Hin He Hw.
  assert (Hd : In todo (docs db)) by (eapply Permutation_in; eassumption).
  assert (Hf : findById (_id todo) db = Some todo)
    by (apply find_in_nodup; auto).
  destruct (trim (editedTitle s)) as [|c r] eqn:Ht.
  { apply trim_empty in Ht. congruence. }
  do 2 eexists. rewrite (save_healthy e _ s db todo c r He Hf Ht).
  split; [reflexivity|].
  set (u := {| set_title := Some (String c r); set_completed := None |}).
  set (f := applyUpdates (Routes.now (server e)) u).
  split; [|split; [exact (put_stored _ u _ _ _ Hf) | split; reflexivity]].
  unfold inStep. simpl.
  rewrite (replaceById_as_map (_id todo) f todo (todos s) (docs db)); auto.
  - rewrite updateOne_map by exact Hn. split.
    + apply Permutation_map, Hp.
    + apply map_sorted; [|exact Hs].
      intros x. now destruct (N.eqb (_id x) (_id todo)).
  - intros t Ht'. eapply Permutation_in; eassumption.
Qed.

Lemma save_keeps_client_in_step_witness :
  exists s' db',
    step (at_ 4000) (ClickSave (_id eggs))
      (setEditedTitle " Buy a dozen eggs " editingEggs) pantry
    = (Rendered s', db') /\
    inStep s' db' /\
    findById (_id eggs) db'
    = Some {| _id := _id eggs;
              Todo.title :=
                trim (editedTitle
                        (setEditedTitle " Buy a dozen eggs " editingEggs));
              completed := completed eggs;
              createdAt := createdAt eggs;
              updatedAt := Routes.now (server (at_ 4000)) |} /\
    editingId s' = None /\ editedTitle s' = "".
Proof.
  apply (save_keeps_client_in_step (at_ 4000) eggs
           (setEditedTitle " Buy a dozen eggs " editingEggs) pantry).
  - exact pantry_wf.
  - exact listed_inStep.
  - exact eggs_listed.
  - exact (at_healthy 4000).
  - reflexivity.
Defined.

(** X15: when the client shows exactly the stored records, newest first,
    a successful delete removes the record with that id on both sides:
    the client keeps its other items in the same order, no item and no
    stored record has that id any more, and the client still shows
    exactly the stored records, newest first. *)
Theorem delete_keeps_client_in_step
    (e : Env) (id : ObjectId) (s : State) (db : Collection) :
  wf db -> inStep s db -> healthy e ->
  exists s' db',
    step e (ClickDelete id) s db = (Rendered s', db') /\
    inStep s' db' /\
    todos s' = filter (otherThan id) (todos s) /\
    ~ In id (ids (todos s')) /\
    findById id db' = None.
Proof.
  intros [Hn Hb] [Hp Hs] [Hon Hf].
  do 2 eexists. unfold step, handler, handleDelete, perform.
  rewrite Hon, Hf, delete_ok. simpl.
  split; [reflexivity|].
  rewrite deleteOne_filter by exact Hn.
  split; [split|split; [reflexivity|split]].
  - apply filter_perm, Hp.
  - apply filter_sorted, Hs.
  - intros H. unfold ids in H. apply in_map_iff in H.
    destruct H as [d [Hd H]]. apply filter_In in H. destruct H as [_ H].
    unfold otherThan in H. rewrite Hd, N.eqb_refl in H. discriminate.
  - unfold findById. simpl. apply find_none_ids.
    intros H. unfold ids in H. apply in_map_iff in H.
    destruct H as [d [Hd H]]. apply filter_In in H. destruct H as [_ H].
    unfold otherThan in H. rewrite Hd, N.eqb_refl in H. discriminate.
Qed.

Lemma delete_keeps_client_in_step_witness :
  exists s' db',
    step (at_ 4000) (ClickDelete 1%N) listed pantry = (Rendered s', db') /\
    inStep s' db' /\
    todos s' = filter (otherThan 1%N) (todos listed) /\
    ~ In 1%N (ids (todos s')) /\
    findById 1%N db' = None.
Proof.
  apply (delete_keeps_client_in_step (at_ 4000) 1%N listed pantry).
  - exact pantry_wf.
  - exact listed_inStep.
  - exact (at_healthy 4000).
Defined.

(** X16: when the client shows exactly the stored records, newest first,
    and the clock does not read earlier than the creation of a stored
    record, a successful Add of an input that is not blank stores a
    record with the trimmed input as title, puts it in front of the
    list, clears the input, and leaves the client showing exactly the
    stored records, newest first. *)
Theorem add_keeps_client_in_step
    (e : Env) (s : State) (db : Collection) :
  inStep s db -> notBefore (Routes.now (server e)) db -> healthy e ->
  allWhiteSpace (title s) = false ->
  exists todo s' db',
    step e Submit s db = (Rendered s', db') /\
    inStep s' db' /\
    todos s' = todo :: todos s /\ title s' = "" /\
    todo = {| _id := nextId db; Todo.title := trim (title s);
              completed := false;
              createdAt := Routes.now (server e);
              updatedAt := Routes.now (server e) |}.
Proof.
  intros [Hp Hs] Hnb [Hon Hf] Hw.
  destruct (trim (title s)) as [|c r] eqn:Ht.
  { apply trim_empty in Ht. congruence. }
  do 3 eexists. unfold step, handler, handleAddTodo, perform.
  rewrite Ht. simpl isEmpty. cbv iota.
  rewrite Hon, Hf, post_ok. simpl.
  split; [reflexivity|].
  split; [|repeat split].
  split.
  - eapply perm_trans; [|apply Permutation_cons_append].
    apply perm_skip, Hp.
  - constructor; [exact Hs|].
    eapply Permutation_Forall; [apply Permutation_sym, Hp|].
    exact Hnb.
Qed.

Lemma add_keeps_client_in_step_witness :
  exists todo s' db',
    step (at_ 4000) Submit typing pantry = (Rendered s', db') /\
    inStep s' db' /\
    todos s' = todo :: todos typing /\ title s' = "" /\
    todo = {| _id := nextId pantry; Todo.title := trim (title typing);
              completed := false;
              createdAt := Routes.now (server (at_ 4000));
              updatedAt := Routes.now (server (at_ 4000)) |}.
Proof.
  apply (add_keeps_client_in_step (at_ 4000) typing pantry).
  - exact listed_inStep.
  - exact pantry_notBefore.
  - exact (at_healthy 4000).
  - reflexivity.
Defined.

(** X17: when its request is rejected, because it did not get through or
    because the service answered 500, each of Add, toggle, save and
    delete leaves the client state exactly as it was. *)
Theorem rejected_request_keeps_client_state
    (m : string) (s : State) :
  rejectedWith m (handleAddTodo s) = Rendered s /\
  (forall todo, rejectedWith m (handleToggle todo s) = Rendered s) /\
  (forall id, rejectedWith m (saveEditedTodo id s) = Rendered s) /\
  (forall id, rejectedWith m (handleDelete id s) = Rendered s) /\
  (forall e db,
     ~ healthy e ->
     fst (step e Submit s db) = Rendered s /\
     (forall todo, fst (step e (ChangeCheckbox todo) s db) = Rendered s) /\
     (forall id, fst (step e (ClickSave id) s db) = Rendered s) /\
     (forall id, fst (step e (ClickDelete id) s db) = Rendered s)).
Proof.
  unfold handleAddTodo, saveEditedTodo.
  split; [now destruct (isEmpty (trim (title s)))|].
  split; [reflexivity|].
  split; [intros id; now destruct (isEmpty (trim (editedTitle s)))|].
  split; [reflexivity|].
  intros e db H. destruct e as [[now fault] on]. unfold healthy in H.
  simpl in H.
  unfold step, handler, handleAddTodo, handleToggle, saveEditedTodo,
    handleDelete, perform. simpl.
  destruct on.
  - destruct fault as [f|]; [|exfalso; apply H; now split].
    repeat split; intros;
      try (destruct (isEmpty (trim (title s))); reflexivity);
      try (destruct (isEmpty (trim (editedTitle s))); reflexivity).
    destruct (trim (title s)); reflexivity.
  - repeat split; intros;
      try (destruct (isEmpty (trim (title s))); reflexivity);
      try (destruct (isEmpty (trim (editedTitle s))); reflexivity).
Qed.

Lemma rejected_request_keeps_client_state_witness :
  fst (step offline Submit typing pantry) = Rendered typing /\
  (forall todo,
     fst (step offline (ChangeCheckbox todo) typing pantry)
     = Rendered typing) /\
  (forall id, fst (step offline (ClickSave id) typing pantry)
              = Rendered typing) /\
  (forall id, fst (step offline (ClickDelete id) typing pantry)
              = Rendered typing).
Proof.
  destruct (rejected_request_keeps_client_state "Network Error" typing)
    as [_ [_ [_ [_ H]]]].
  apply (H offline pantry). intros [Hon _]. discriminate.
Defined.

(** X18: in every reachable state the client holds no identifier twice,
    every identifier it holds was handed out by the collection, and the
    collection is well formed. *)
Theorem client_never_holds_an_id_twice (s : State) (db : Collection) :
  reachable s db ->
  NoDup (ids (todos s)) /\
  Forall (fun id => (id < nextId db)%N) (ids (todos s)) /\
  wf db.
Proof.
  intros H. apply reachable_coherent in H. destruct H as [Hwf [Hn Hb]].
  split; [exact Hn | split; [exact Hb | exact Hwf]].
Qed.

Lemma client_never_holds_an_id_twice_witness :
  NoDup (ids (todos listed)) /\
  Forall (fun id => (id < nextId pantry)%N) (ids (todos listed)) /\
  wf pantry.
Proof.
  apply (client_never_holds_an_id_twice listed pantry).
  exact listed_reachable.
Defined.

(** X19: no event brings the loading message back: once the loading flag
    is false it stays false. *)
Theorem loading_never_returns
    (e : Env) (ev : event) (s s' : State) (db db' : Collection) :
  loading s = false ->
  step e ev s db = (Rendered s', db') ->
  loading s' = false /\ render s' <> LoadingMessage.
Proof.
  intros Hl Hstep.
  assert (G : loading s' = false).
  { destruct e as [[now fault] on].
    destruct ev; unfold step, handler, fetchTodos, handleAddTodo,
      handleToggle, saveEditedTodo, handleDelete, perform in Hstep;
      simpl in Hstep.
    - destruct on; [destruct fault|]; simpl in Hstep;
        injection Hstep as <- <-; reflexivity.
    - injection Hstep as <- <-. exact Hl.
    - destruct (isEmpty (trim (title s)));
        [injection Hstep as <- <-; exact Hl|].
      destruct on; [|injection Hstep as <- <-; exact Hl].
      destruct (Routes.post fault now (Some (trim (title s))) db)
        as [[t|t|m|m] d]; simpl in Hstep; injection Hstep as <- <-;
        exact Hl.
    - destruct on; [|injection Hstep as <- <-; exact Hl].
      destruct (Routes.put fault now _ _ db) as [[[t|]|[t|]|m|m] d];
        simpl in Hstep;
        try (injection Hstep as <- <-; exact Hl);
        destruct (todos s); try discriminate;
        injection Hstep as <- <-; exact Hl.
    - injection Hstep as <- <-. exact Hl.
    - injection Hstep as <- <-. exact Hl.
    - destruct (isEmpty (trim (editedTitle s)));
        [injection Hstep as <- <-; exact Hl|].
      destruct on; [|injection Hstep as <- <-; exact Hl].
      destruct (Routes.put fault now _ _ db) as [[[t|]|[t|]|m|m] d];
        simpl in Hstep;
        try (injection Hstep as <- <-; exact Hl);
        destruct (existsb _ (todos s)); try discriminate;
        injection Hstep as <- <-; exact Hl.
    - injection Hstep as <- <-. exact Hl.
    - destruct on; [|injection Hstep as <- <-; exact Hl].
      destruct (Routes.delete fault id db) as [[t|t|m|m] d];
        simpl in Hstep; injection Hstep as <- <-; exact Hl.
    - injection Hstep as <- <-. exact Hl. }
  split; [exact G|]. unfold render. rewrite G.
  destruct (todos s'); discriminate.
Qed.

Lemma loading_never_returns_witness :
  loading editingEggs = false /\ render editingEggs <> LoadingMessage.
Proof.
  apply (loading_never_returns (at_ 4000) (ClickEdit eggs) listed editingEggs
           pantry pantry); reflexivity.
Defined.

(** X20: the edit target and the draft are changed by the edit controls
    only: loading the list, typing in the Add input, adding, toggling,
    deleting and requests from elsewhere leave both as they were. *)
Theorem edit_draft_survives_other_actions
    (e : Env) (ev : event) (s s' : State) (db db' : Collection) :
  editEvent ev = false ->
  step e ev s db = (Rendered s', db') ->
  editingId s' = editingId s /\ editedTitle s' = editedTitle s.
Proof.
  intros Hev Hstep. destruct e as [[now fault] on].
  destruct ev; try discriminate;
    unfold step, handler, fetchTodos, handleAddTodo, handleToggle,
      handleDelete, perform in Hstep; simpl in Hstep.
  - destruct on; [destruct fault|]; simpl in Hstep;
      injection Hstep as <- <-; split; reflexivity.
  - injection Hstep as <- <-. split; reflexivity.
  - destruct (isEmpty (trim (title s)));
      [injection Hstep as <- <-; split; reflexivity|].
    destruct on; [|injection Hstep as <- <-; split; reflexivity].
    destruct (Routes.post fault now (Some (trim (title s))) db)
      as [[t|t|m|m] d]; simpl in Hstep; injection Hstep as <- <-;
      split; reflexivity.
  - destruct on; [|injection Hstep as <- <-; split; reflexivity].
    destruct (Routes.put fault now _ _ db) as [[[t|]|[t|]|m|m] d];
      simpl in Hstep;
      try (injection Hstep as <- <-; split; reflexivity);
      destruct (todos s); try discriminate;
      injection Hstep as <- <-; split; reflexivity.
  - destruct on; [|injection Hstep as <- <-; split; reflexivity].
    destruct (Routes.delete fault id db) as [[t|t|m|m] d];
      simpl in Hstep; injection Hstep as <- <-; split; reflexivity.
  - injection Hstep as <- <-. split; reflexivity.
Qed.

Lemma edit_draft_survives_other_actions_witness :
  editingId (setTodos [bread; eggs] editingEggs) = editingId editingEggs /\
  editedTitle (setTodos [bread; eggs] editingEggs) = editedTitle editingEggs.
Proof.
  apply (edit_draft_survives_other_actions (at_ 4000) (ClickDelete 0%N)
           editingEggs (setTodos [bread; eggs] editingEggs) pantry
           {| docs := [eggs; bread]; nextId := 3%N |}); reflexivity.
Defined.

(** X21: no event of this client makes a stored title empty: if every
    stored title is non-empty before, it is so after. *)
Theorem client_keeps_titles_present
    (e : Env) (ev : event) (s : State) (db : Collection) :
  titlesPresent db -> ownEvent ev = true ->
  titlesPresent (snd (step e ev s db)).
Proof.
  intros H Hown. destruct ev; try discriminate; unfold step;
    rewrite perform_db;
    (destruct (issued (handler _ s)) as [r|] eqn:Hi; [|exact H]);
    (destruct (online e); [|exact H]);
    (apply serve_titles; [exact H|]);
    eapply sent_title_present; exact Hi.
Qed.

Lemma client_keeps_titles_present_witness :
  titlesPresent
    (snd (step (at_ 4000) (ClickSave 1%N)
            (setEditedTitle " Buy a dozen eggs " editingEggs) pantry)).
Proof.
  apply client_keeps_titles_present.
  - exact pantry_titles.
  - reflexivity.
Defined.



(** X23: when the client shows exactly the stored records, no control
    that the render offers makes the component throw, whatever the
    outcome of the request. *)
Theorem in_step_client_never_throws
    (e : Env) (ev : event) (s : State) (db : Collection) :
  wf db -> inStep s db -> enabled s ev ->
  exists s', fst (step e ev s db) = Rendered s'.
Proof.
  intros [Hn Hb] [Hp Hs] Hen.
  assert (Hfind : forall todo, In todo (todos s) ->
                    findById (_id todo) db = Some todo).
  { intros todo Hin. apply find_in_nodup; auto.
    eapply Permutation_in; eassumption. }
  destruct e as [[now fault] on].
  destruct Hen as [Hl| | |todo [_ Hin]|todo _ _|todo v _ _|todo [_ Hin] _
                  |todo _ _|todo _ _|r];
    unfold step, handler, fetchTodos, handleAddTodo, handleToggle,
      saveEditedTodo, handleDelete, perform; simpl;
    try (eexists; reflexivity).
  - destruct on; [destruct fault|]; simpl; eexists; reflexivity.
  - destruct (isEmpty (trim (title s))); [eexists; reflexivity|].
    destruct on; [|eexists; reflexivity].
    destruct (Routes.post fault now (Some (trim (title s))) db)
      as [[t|t|m|m] d]; simpl; eexists; reflexivity.
  - destruct on; [|eexists; reflexivity].
    destruct fault as [m|]; [eexists; reflexivity|].
    rewrite put_ok, (Hfind _ Hin). simpl. eexists; reflexivity.
  - destruct (isEmpty (trim (editedTitle s))); [eexists; reflexivity|].
    destruct on; [|eexists; reflexivity].
    destruct fault as [m|]; [eexists; reflexivity|].
    rewrite put_ok, (Hfind _ Hin). simpl. eexists; reflexivity.
  - destruct on; [|eexists; reflexivity].
    destruct (Routes.delete fault _ db) as [[t|t|m|m] d]; simpl;
      eexists; reflexivity.
Qed.

Lemma in_step_client_never_throws_witness :
  exists s',
    fst (step (at_ 4000) (ClickSave (_id eggs)) editingEggs pantry)
    = Rendered s'.
Proof.
  apply (in_step_client_never_throws (at_ 4000) (ClickSave (_id eggs))
           editingEggs pantry).
  - exact pantry_wf.
  - exact listed_inStep.
  - apply (en_ClickSave editingEggs eggs).
    + split; [reflexivity | exact eggs_listed].
    + reflexivity.
Defined.

End ClientMore.
